(** * SettingsManager: a model of [settings-manager.js] and its properties

    The development embeds the [SettingsManager] class of
    [src/settings-manager.js] (version 0.1.3.5) in Rocq.

    - JavaScript values are a small inductive type; numbers are modelled at
      their integer values.
    - A JavaScript object used as a dictionary is an insertion-ordered list
      of own properties.  Reading a property walks to [Object.prototype];
      [for ... in] enumerates integer-like keys first, in ascending order,
      and the other keys in insertion order.
    - The engine and its environment ([localStorage], the rendered
      controls, the console, the job queue of the event loop) form one
      [World]; methods are computations in a state-and-exception monad over
      it.  The registry object lives in a heap and the private fields
      [#settings] and [#defaults] are references into it, so that aliasing
      is visible. *)

From Stdlib Require Import ZArith NArith String Ascii List Bool Lia DecimalString.
From stdpp Require Import base tactics option list gmap strings.
Import ListNotations.

Local Open Scope string_scope.
Local Open Scope Z_scope.

(** ** JavaScript values *)

Module JS.

(** Primitive values that reach the engine: option keys, stored values,
    callback results. *)
Inductive value : Type :=
  | Undefined
  | Null
  | Bool (b : bool)
  | Num (n : Z)
  | Str (s : string).

#[global] Instance value_eq_dec : EqDecision value.
Proof. solve_decision. Defined.

(** [a === b] on primitives. *)
Definition strict_eq (a b : value) : bool := bool_decide (a = b).

(** ToBoolean: the operand test of [||], [&&] and [if]. *)
Definition truthy (v : value) : bool :=
  match v with
  | Undefined | Null => false
  | Bool b => b
  | Num n => negb (n =? 0)
  | Str s => negb (String.eqb s EmptyString)
  end.

(** [a || b]. *)
Definition or_else (a b : value) : value := if truthy a then a else b.

(** ToString, which is also ToPropertyKey on primitives. *)
Definition to_string (v : value) : string :=
  match v with
  | Undefined => "undefined"
  | Null => "null"
  | Bool true => "true"
  | Bool false => "false"
  | Num n => NilZero.string_of_int (Z.to_int n)
  | Str s => s
  end.

(** *** Character classes *)

Definition is_digit (c : ascii) : bool :=
  ((48 <=? nat_of_ascii c) && (nat_of_ascii c <=? 57))%nat.

Definition digit_val (c : ascii) : N := N.of_nat (nat_of_ascii c - 48).

(** White space and line terminators of the ASCII range. *)
Definition is_space (c : ascii) : bool :=
  let n := nat_of_ascii c in
  ((n =? 32) || ((9 <=? n) && (n <=? 13)))%nat.

Fixpoint digits_val (acc : N) (s : string) : option N :=
  match s with
  | EmptyString => Some acc
  | String c s' =>
      if is_digit c then digits_val (10 * acc + digit_val c)%N s' else None
  end.

(** A non-empty run of decimal digits. *)
Definition parse_digits (s : string) : option N :=
  match s with
  | EmptyString => None
  | _ => digits_val 0%N s
  end.

(** No leading zero, except for ["0"] itself. *)
Definition canonical_digits (s : string) : bool :=
  match s with
  | EmptyString => false
  | String c EmptyString => is_digit c
  | String c _ => is_digit c && negb (Ascii.eqb c "0")
  end.

(** An array index: a canonical numeric string below [2^32 - 1].  These
    are the keys that property enumeration orders numerically. *)
Definition array_index (s : string) : option N :=
  match parse_digits s with
  | Some n => if canonical_digits s && (n <? 4294967295)%N then Some n else None
  | None => None
  end.

(** ToNumber on a string, for integer decimal literals with an optional
    sign and for the empty string; [None] is NaN.  Other numeric literal
    forms (fractions, exponents, radix prefixes, surrounding blanks) are
    not integers or are outside this model. *)
Definition to_number_str (s : string) : option Z :=
  match s with
  | EmptyString => Some 0
  | String "-" s' => (fun n => - Z.of_N n) <$> parse_digits s'
  | String "+" s' => Z.of_N <$> parse_digits s'
  | _ => Z.of_N <$> parse_digits s
  end.

Fixpoint skip_space (s : string) : string :=
  match s with
  | String c s' => if is_space c then skip_space s' else s
  | EmptyString => EmptyString
  end.

Definition skip_sign (s : string) : string :=
  match s with
  | String "-" s' | String "+" s' => s'
  | _ => s
  end.

(** [isNaN(parseFloat(x))] for a string [x]: after leading blanks and an
    optional sign, [parseFloat] needs a digit, a dot followed by a digit,
    or the word [Infinity]. *)
Definition parseFloat_is_NaN_str (s : string) : bool :=
  match skip_sign (skip_space s) with
  | String c rest =>
      negb (is_digit c
            || (Ascii.eqb c "." &&
                match rest with String d _ => is_digit d | EmptyString => false end)
            || String.prefix "Infinity" (String c rest))
  | EmptyString => true
  end.

(** [isNaN(parseFloat(v))]; the argument is first converted to a string. *)
Definition parseFloat_is_NaN (v : value) : bool :=
  parseFloat_is_NaN_str (to_string v).

(** *** JSON.stringify on primitives *)

Definition hex_digit (n : nat) : ascii :=
  ascii_of_nat (if (n <? 10)%nat then 48 + n else 87 + n)%nat.

Definition backslash : ascii := ascii_of_nat 92.
Definition dquote : ascii := ascii_of_nat 34.

(** A backslash followed by the given text. *)
Definition escape (s : string) : string := String backslash s.

Definition json_escape (c : ascii) : string :=
  let n := nat_of_ascii c in
  if (n =? 34)%nat then escape (String dquote EmptyString)
  else if (n =? 92)%nat then escape (String backslash EmptyString)
  else if (n =? 8)%nat then escape "b"
  else if (n =? 9)%nat then escape "t"
  else if (n =? 10)%nat then escape "n"
  else if (n =? 12)%nat then escape "f"
  else if (n =? 13)%nat then escape "r"
  else if (n <? 32)%nat then
    escape ("u00" ++ String (hex_digit (n / 16))
                       (String (hex_digit (n mod 16)) EmptyString))
  else String c EmptyString.

Fixpoint json_escape_all (s : string) : string :=
  match s with
  | EmptyString => EmptyString
  | String c s' => json_escape c ++ json_escape_all s'
  end.

Definition json_quote (s : string) : string :=
  String dquote (json_escape_all s ++ String dquote EmptyString).

(** [JSON.stringify(v)]: [undefined] has no serialization and yields
    [undefined]; every other primitive yields a string. *)
Definition JSON_stringify (v : value) : value :=
  match v with
  | Undefined => Undefined
  | Str s => Str (json_quote s)
  | _ => Str (to_string v)
  end.

(** ** Objects as property lists *)

(** The own enumerable properties of an object literal, in the order they
    were written. *)
Definition props (A : Type) : Type := list (string * A).

Definition own_keys {A} (o : props A) : list string := o.*1.

Fixpoint own_get {A} (o : props A) (k : string) : option A :=
  match o with
  | [] => None
  | (k', a) :: o' => if String.eqb k' k then Some a else own_get o' k
  end.

(** The properties every object literal inherits from [Object.prototype]
    (ECMA-262, 20.1.3 and B.2.2).  They are not enumerable. *)
Definition Object_prototype : list string :=
  [ "constructor"; "hasOwnProperty"; "isPrototypeOf"; "propertyIsEnumerable";
    "toLocaleString"; "toString"; "valueOf"; "__proto__";
    "__defineGetter__"; "__defineSetter__"; "__lookupGetter__";
    "__lookupSetter__" ].

Definition in_prototype (k : string) : bool :=
  existsb (String.eqb k) Object_prototype.

(** The result of the expression [o[k]]. *)
Inductive read (A : Type) : Type :=
  | Own (a : A)      (* an own property *)
  | Inherited        (* a built-in found on the prototype: not [undefined],
                        and none of the fields the engine reads from it is
                        defined *)
  | Absent.          (* [undefined] *)
Arguments Own {A} a.
Arguments Inherited {A}.
Arguments Absent {A}.

Definition get {A} (o : props A) (k : string) : read A :=
  match own_get o k with
  | Some a => Own a
  | None => if in_prototype k then Inherited else Absent
  end.

(** *** Enumeration order of [for (k in o)] *)

Fixpoint insert_index (x : N * string) (l : list (N * string)) : list (N * string) :=
  match l with
  | [] => [x]
  | y :: l' => if (x.1 <=? y.1)%N then x :: l else y :: insert_index x l'
  end.

Definition sort_indices (l : list (N * string)) : list (N * string) :=
  foldr insert_index [] l.

Definition index_keys (ks : list string) : list (N * string) :=
  omap (fun k => (fun n => (n, k)) <$> array_index k) ks.

Definition name_keys (ks : list string) : list string :=
  filter (fun k => array_index k = None) ks.

(** Integer keys ascending, then the remaining keys in insertion order. *)
Definition keys {A} (o : props A) : list string :=
  (sort_indices (index_keys (own_keys o))).*2 ++ name_keys (own_keys o).

(** [arr.indexOf(v)]: position of the first element strictly equal to
    [v], or [-1].  The elements are strings, so only a string matches. *)
Fixpoint index_of_from (i : Z) (arr : list string) (k : string) : Z :=
  match arr with
  | [] => -1
  | x :: arr' => if String.eqb x k then i else index_of_from (i + 1) arr' k
  end.

Definition indexOf (arr : list string) (v : value) : Z :=
  match v with
  | Str k => index_of_from 0 arr k
  | _ => -1
  end.

(** [arr[i]] for an array of strings. *)
Definition at_index (arr : list string) (i : Z) : value :=
  if i <? 0 then Undefined
  else match arr !! Z.to_nat i with
       | Some k => Str k
       | None => Undefined
       end.

(** *** [arr.sort((a, b) => b - a)] *)

(** The comparator: NaN counts as [+0]. *)
Definition compare_desc (a b : string) : Z :=
  match to_number_str b, to_number_str a with
  | Some y, Some x => y - x
  | _, _ => 0
  end.

Fixpoint insert_desc (a : string) (l : list string) : list string :=
  match l with
  | [] => [a]
  | b :: l' => if compare_desc a b <=? 0 then a :: l else b :: insert_desc a l'
  end.

(** A stable sort; the result is the one every engine gives whenever the
    comparator is consistent, which is the case when all elements are
    numeric. *)
Definition sort_desc (l : list string) : list string := foldr insert_desc [] l.

End JS.

(** ** The schema: settings, options and their callbacks *)

(** How a promise ends. *)
Inductive Settlement : Type :=
  | Fulfilled (result : JS.value)
  | Rejected.

(** What calling an option's function [f] does, as far as the engine can
    observe it. *)
Inductive Callback : Type :=
  | Returns (result : JS.value)  (* an ordinary function returning a primitive *)
  | Throws                       (* an ordinary function that throws *)
  | Settled (s : Settlement)     (* a promise already settled on return, as
                                    from an async function that never awaits *)
  | Pending (s : Settlement).    (* a promise settled by a later task: a
                                    timer, a network reply *)

(** What calling a setting's initializer [i] does: it may call the
    engine's [set] for its own setting, and it may throw. *)
Record Initializer : Type := {
  i_sets : option JS.value;
  i_throws : bool }.

(** One entry of [o]. *)
Record OptionDefinition : Type := {
  o_s : JS.value;            (* s: display name *)
  o_f : option Callback;     (* f: run when the option is selected *)
  o_d : option bool;         (* d: disabled flag *)
  o_h : option bool }.       (* h: hidden flag *)

(** The object [d]. *)
Record Details : Type := {
  d_name : JS.value;
  d_description : JS.value;
  d_type : string }.

(** One entry of the settings list. *)
Record SettingDefinition : Type := {
  s_v : JS.value;                        (* v: the in-memory value *)
  s_a : option (list string);            (* a: attributes of the control *)
  s_d : Details;                         (* d: details *)
  s_i : option Initializer;              (* i: initializer *)
  s_o : JS.props OptionDefinition }.     (* o: options *)

(** The settings list itself: an object that may have been frozen. *)
Record Registry : Type := {
  frozen : bool;
  entries : JS.props SettingDefinition }.

(** ** The rendered controls *)

Record TopButton : Type := {
  tb_name : string;             (* name attribute *)
  tb_value : string;            (* value property *)
  tb_type : string;             (* setting-type attribute *)
  tb_desc : string;             (* desc attribute *)
  tb_attrs : list string;       (* further attributes, each set to "true" *)
  tb_label : string;            (* text of the label *)
  tb_span : string;             (* text of the span *)
  tb_error : bool }.            (* the span carries the error class and colour *)

Record SubButton : Type := {
  sb_name : string;
  sb_value : string;
  sb_label : string;
  sb_active : bool;             (* class Active *)
  sb_disabled : bool }.

Inductive Element : Type :=
  | Top (b : TopButton)
  | SubMenu (id : string) (buttons : list SubButton).

(** ** The world of one engine instance *)

(** [localStorage]; either operation may be made to throw. *)
Record Storage : Type := {
  items : gmap string string;
  getItem_throws : bool;
  setItem_throws : bool }.

(** The argument object of [setSetting], which [executeSetting] extends
    and hands to the option's function. *)
Record Args : Type := {
  a_v : JS.value;
  a_s : bool;                   (* s: the engine *)
  a_this : option string }.     (* this: the setting object, by name *)

(** The argument object of [executeSetting]. *)
Record ExecArgs : Type := {
  x_value : JS.value;
  x_args : option Args }.

(** Continuations of the two async arrow functions, resumed by the job
    queue. *)
Inductive Job : Type :=
  | PersistJob (setting : string) (v : JS.value)
      (* setSetting, after [await this.executeSetting(...)] *)
  | CallbackJob (setting : string) (value : JS.value) (s : Settlement).
      (* executeSetting, after [await options[value].f(argsPassed)] *)

(** What an observer of the engine can see happen.  Of the console,
    [console.error] and [console.log] are recorded; [console.debug] and
    [console.info] are not. *)
Inductive Event : Type :=
  | ConsoleError
  | ConsoleLog
  | CallInitializer (setting : string)
  | CallSet (setting : string) (v : JS.value)
  | CallOption (setting : string) (key : string) (args : Args)
  | CallUpdateDOM (setting : string) (v : JS.value) (error : bool)
  | SetItem (key : string) (v : string)
  | UnhandledRejection.

Inductive Exn : Type :=
  | TypeError
  | StorageError        (* thrown by localStorage *)
  | CallbackError       (* thrown by user code *)
  | NotAnOption         (* "The value ... is not in the options of the setting ..." *)
  | CouldNotSet.        (* "Could not set the setting ... to ..." *)

Record World : Type := {
  heap : gmap nat Registry;            (* objects holding settings lists *)
  settings_ref : nat;                  (* #settings *)
  defaults_ref : nat;                  (* #defaults *)
  container : option (list Element);   (* #container.element, its children *)
  watching : bool;                     (* #container.observer is installed *)
  storage : Storage;
  jobs : list Job;                     (* the microtask queue *)
  waiting : list Job;                  (* reactions on promises still pending *)
  trace : list Event }.

#[global] Instance settlement_eq_dec : EqDecision Settlement.
Proof. solve_decision. Defined.
#[global] Instance callback_eq_dec : EqDecision Callback.
Proof. solve_decision. Defined.
#[global] Instance args_eq_dec : EqDecision Args.
Proof. solve_decision. Defined.
#[global] Instance job_eq_dec : EqDecision Job.
Proof. solve_decision. Defined.
#[global] Instance event_eq_dec : EqDecision Event.
Proof. solve_decision. Defined.

Definition with_heap (h : gmap nat Registry) (w : World) : World :=
  {| heap := h; settings_ref := settings_ref w; defaults_ref := defaults_ref w;
     container := container w; watching := watching w; storage := storage w;
     jobs := jobs w; waiting := waiting w; trace := trace w |}.

Definition with_refs (s d : nat) (w : World) : World :=
  {| heap := heap w; settings_ref := s; defaults_ref := d;
     container := container w; watching := watching w; storage := storage w;
     jobs := jobs w; waiting := waiting w; trace := trace w |}.

Definition with_watching (b : bool) (w : World) : World :=
  {| heap := heap w; settings_ref := settings_ref w; defaults_ref := defaults_ref w;
     container := container w; watching := b; storage := storage w;
     jobs := jobs w; waiting := waiting w; trace := trace w |}.

Definition with_container (c : option (list Element)) (w : World) : World :=
  {| heap := heap w; settings_ref := settings_ref w; defaults_ref := defaults_ref w;
     container := c; watching := watching w; storage := storage w;
     jobs := jobs w; waiting := waiting w; trace := trace w |}.

Definition with_storage (s : Storage) (w : World) : World :=
  {| heap := heap w; settings_ref := settings_ref w; defaults_ref := defaults_ref w;
     container := container w; watching := watching w; storage := s;
     jobs := jobs w; waiting := waiting w; trace := trace w |}.

Definition with_jobs (j : list Job) (w : World) : World :=
  {| heap := heap w; settings_ref := settings_ref w; defaults_ref := defaults_ref w;
     container := container w; watching := watching w; storage := storage w;
     jobs := j; waiting := waiting w; trace := trace w |}.

Definition with_waiting (j : list Job) (w : World) : World :=
  {| heap := heap w; settings_ref := settings_ref w; defaults_ref := defaults_ref w;
     container := container w; watching := watching w; storage := storage w;
     jobs := jobs w; waiting := j; trace := trace w |}.

Definition with_trace (t : list Event) (w : World) : World :=
  {| heap := heap w; settings_ref := settings_ref w; defaults_ref := defaults_ref w;
     container := container w; watching := watching w; storage := storage w;
     jobs := jobs w; waiting := waiting w; trace := t |}.

(** ** Computations: state and exceptions *)

Inductive Completion (A : Type) : Type :=
  | Normal (a : A)
  | Throw (e : Exn).
Arguments Normal {A} a.
Arguments Throw {A} e.

Definition M (A : Type) : Type := World -> Completion A * World.

Definition ret {A} (a : A) : M A := fun w => (Normal a, w).

Definition bind {A B} (c : M A) (k : A -> M B) : M B :=
  fun w =>
    match c w with
    | (Normal a, w') => k a w'
    | (Throw e, w') => (Throw e, w')
    end.

Definition throw {A} (e : Exn) : M A := fun w => (Throw e, w).

(** [try { c } catch (e) { h e }]: effects made before the throw stay. *)
Definition try_catch {A} (c : M A) (h : Exn -> M A) : M A :=
  fun w =>
    match c w with
    | (Normal a, w') => (Normal a, w')
    | (Throw e, w') => h e w'
    end.

Definition get_world : M World := fun w => (Normal w, w).
Definition modify (f : World -> World) : M unit := fun w => (Normal tt, f w).

Declare Scope js_scope.
Delimit Scope js_scope with js.
Notation "x <- c ;; k" := (bind c (fun x => k))
  (at level 100, c at next level, right associativity) : js_scope.
Notation "c ;;; k" := (bind c (fun _ => k))
  (at level 100, right associativity) : js_scope.
Local Open Scope js_scope.

Definition log (e : Event) : M unit :=
  modify (fun w => with_trace (trace w ++ [e]) w).

Definition console_error : M unit := log ConsoleError.
Definition console_log : M unit := log ConsoleLog.

(** [for (x of xs) body x], stopping at the first throw. *)
Fixpoint for_each {A} (xs : list A) (body : A -> M unit) : M unit :=
  match xs with
  | [] => ret tt
  | x :: xs' => body x ;;; for_each xs' body
  end.

(** *** Reads through the private fields *)

Definition object_at (r : nat) (w : World) : JS.props SettingDefinition :=
  match heap w !! r with
  | Some o => entries o
  | None => []
  end.

(** [this.#settings] and [this.#defaults]. *)
Definition settings (w : World) : JS.props SettingDefinition :=
  object_at (settings_ref w) w.
Definition defaults (w : World) : JS.props SettingDefinition :=
  object_at (defaults_ref w) w.

(** [x.p] where [x] is the result of a property read: a TypeError when
    [x] is [undefined]. *)
Definition field {A B} (x : JS.read A) (p : A -> B) (undefined : B) : M B :=
  match x with
  | JS.Own a => ret (p a)
  | JS.Inherited => ret undefined
  | JS.Absent => throw TypeError
  end.

(** [this.#settings[setting]] *)
Definition setting_object (setting : string) : M (JS.read SettingDefinition) :=
  w <- get_world ;; ret (JS.get (settings w) setting).

(** [this.#defaults[setting]] *)
Definition default_object (setting : string) : M (JS.read SettingDefinition) :=
  w <- get_world ;; ret (JS.get (defaults w) setting).

(** [x.v] *)
Definition dot_v (x : JS.read SettingDefinition) : M JS.value :=
  field x s_v JS.Undefined.

(** [x.o]: [None] stands for [undefined]. *)
Definition dot_o (x : JS.read SettingDefinition) : M (option (JS.props OptionDefinition)) :=
  field x (fun d => Some (s_o d)) None.

(** [options[key]], a TypeError when [options] is [undefined]. *)
Definition option_at (options : option (JS.props OptionDefinition)) (key : JS.value)
  : M (JS.read OptionDefinition) :=
  match options with
  | Some o => ret (JS.get o (JS.to_string key))
  | None => throw TypeError
  end.

(** [x.f]: [None] stands for [undefined]. *)
Definition dot_f (x : JS.read OptionDefinition) : M (option Callback) :=
  field x o_f None.

(** [x.s] *)
Definition dot_s (x : JS.read OptionDefinition) : M JS.value :=
  field x o_s JS.Undefined.

(** *** localStorage *)

Definition localStorage_getItem (key : string) : M (option string) :=
  w <- get_world ;;
  if getItem_throws (storage w) then throw StorageError
  else ret (items (storage w) !! key).

(** The value is converted to a string. *)
Definition localStorage_setItem (key : string) (v : JS.value) : M unit :=
  w <- get_world ;;
  if setItem_throws (storage w) then throw StorageError
  else
    modify (fun w =>
      with_storage {| items := <[key := JS.to_string v]> (items (storage w));
                      getItem_throws := getItem_throws (storage w);
                      setItem_throws := setItem_throws (storage w) |} w) ;;;
    log (SetItem key (JS.to_string v)).

(** ** The methods of [SettingsManager] *)

(** *** getSetting *)

Definition getSetting (setting : string) : M JS.value :=
  try_catch
    (value <- localStorage_getItem setting ;;
     match value with
     | None => s <- setting_object setting ;; dot_v s
     | Some stored => ret (JS.Str stored)
     end)
    (fun _ => console_log ;;; ret JS.Null).

(** *** updateDOM *)

(** [document.querySelector("button.TopButton[name^='" + setting + "']")]:
    the first top button whose name starts with [setting]; an empty
    prefix selects nothing.  Setting names are taken to be free of
    characters that are special inside a quoted selector string. *)
Definition top_matches (setting : string) (b : TopButton) : bool :=
  negb (String.eqb setting EmptyString) && String.prefix setting (tb_name b).

Fixpoint find_top (setting : string) (doc : list Element) : option TopButton :=
  match doc with
  | [] => None
  | Top b :: doc' => if top_matches setting b then Some b else find_top setting doc'
  | SubMenu _ _ :: doc' => find_top setting doc'
  end.

Fixpoint update_top (setting : string) (f : TopButton -> TopButton)
    (doc : list Element) : list Element :=
  match doc with
  | [] => []
  | Top b :: doc' =>
      if top_matches setting b then Top (f b) :: doc'
      else Top b :: update_top setting f doc'
  | e :: doc' => e :: update_top setting f doc'
  end.

(** [document.querySelectorAll("button.SubButton[name='" + setting + "']")],
    with a function applied to every button selected. *)
Definition update_subs (setting : string) (f : SubButton -> SubButton)
    (doc : list Element) : list Element :=
  map (fun e =>
         match e with
         | SubMenu id bs =>
             SubMenu id (map (fun b => if String.eqb (sb_name b) setting then f b else b) bs)
         | Top b => Top b
         end) doc.

(** [value || this.#settings[setting].v || this.#defaults[setting].v] *)
Definition value_or_current (setting : string) (value : JS.value) : M JS.value :=
  if JS.truthy value then ret value
  else
    s <- setting_object setting ;;
    v <- dot_v s ;;
    if JS.truthy v then ret v
    else d <- default_object setting ;; dot_v d.

(** Assigning to [innerHTML]: [null] becomes the empty string. *)
Definition html_text (v : JS.value) : string :=
  match v with
  | JS.Null => EmptyString
  | _ => JS.to_string v
  end.

Definition has_attribute (a : string) (b : TopButton) : bool :=
  existsb (String.eqb a) (tb_attrs b).

Definition show_on_top (settingValue settingOptionName : JS.value) (error : bool)
    (b : TopButton) : TopButton :=
  {| tb_name := tb_name b; tb_value := JS.to_string settingValue;
     tb_type := tb_type b; tb_desc := tb_desc b; tb_attrs := tb_attrs b;
     tb_label := tb_label b; tb_span := html_text settingOptionName;
     tb_error := error && negb (has_attribute "disabled" b) |}.

Definition show_on_sub (settingValue : JS.value) (b : SubButton) : SubButton :=
  {| sb_name := sb_name b; sb_value := sb_value b; sb_label := sb_label b;
     sb_active := JS.strict_eq (JS.Str (sb_value b)) settingValue;
     sb_disabled := sb_disabled b |}.

Definition updateDOM (setting : string) (value : JS.value) (error : bool) : M bool :=
  log (CallUpdateDOM setting value error) ;;;
  w <- get_world ;;
  match container w with
  | None => console_error ;;; ret false
  | Some [] => console_error ;;; ret false
  | Some doc =>
      try_catch
        (let buttonTop := find_top setting doc in
         settingValue <- value_or_current setting value ;;
         s <- setting_object setting ;;
         options <- dot_o s ;;
         opt <- option_at options settingValue ;;
         settingOptionName <- dot_s opt ;;
         match buttonTop with
         | None => throw TypeError
         | Some _ =>
             modify (with_container
                       (Some (update_top setting
                                (show_on_top settingValue settingOptionName error)
                                (update_subs setting (show_on_sub settingValue) doc)))) ;;;
             ret true
         end)
        (fun _ => console_error ;;; ret false)
  end.

(** *** executeSetting *)

Definition enqueue (j : Job) : M unit :=
  modify (fun w => with_jobs (jobs w ++ [j]) w).

Definition await_later (j : Job) : M unit :=
  modify (fun w => with_waiting (waiting w ++ [j]) w).

(** The async arrow of [executeSetting], run up to its [await]: the
    function is called at once; what follows the [await] is a job. *)
Definition call_option (setting : string) (value : JS.value) (argsPassed : Args)
    (f : Callback) : M unit :=
  log (CallOption setting (JS.to_string value) argsPassed) ;;;
  match f with
  | Returns r => enqueue (CallbackJob setting value (Fulfilled r))
  | Settled s => enqueue (CallbackJob setting value s)
  | Pending s => await_later (CallbackJob setting value s)
  | Throws => updateDOM setting value true ;;; console_error
  end.

Definition is_own {A} (x : JS.read A) : bool :=
  match x with JS.Own _ => true | _ => false end.

Definition executeSetting (setting : string) (args : ExecArgs) : M unit :=
  value <- value_or_current setting (x_value args) ;;
  s <- setting_object setting ;;
  let argsPassed :=
    {| a_v := match x_args args with Some a => a_v a | None => JS.Undefined end;
       a_s := true;
       a_this := if is_own s then Some setting else None |} in
  options <- dot_o s ;;
  try_catch
    (opt <- option_at options value ;;
     f <- dot_f opt ;;
     match f with
     | Some cb => call_option setting value argsPassed cb
     | None => updateDOM setting value false ;;; ret tt
     end)
    (fun _ => console_error).

(** *** setSetting *)

Definition setSetting (setting : string) (args : Args) : M unit :=
  log (CallSet setting (a_v args)) ;;;
  s <- setting_object setting ;;
  settingOptions <- dot_o s ;;
  try_catch
    (opt <- option_at settingOptions (a_v args) ;;
     match opt with
     | JS.Absent => throw NotAnOption
     | _ =>
         try_catch
           (f <- dot_f opt ;;
            match f with
            | Some _ =>
                (* the async arrow, run up to its await; a throw in it
                   rejects a promise nobody holds *)
                try_catch
                  (executeSetting setting {| x_value := a_v args; x_args := Some args |} ;;;
                   enqueue (PersistJob setting (a_v args)))
                  (fun _ => log UnhandledRejection)
            | None =>
                try_catch
                  (localStorage_setItem setting (a_v args) ;;;
                   updateDOM setting (a_v args) false ;;;
                   ret tt)
                  (fun _ => console_error ;;; throw CouldNotSet)
            end)
           (fun _ => console_error ;;; throw CouldNotSet)
     end)
    (fun _ => console_error ;;; updateDOM setting (a_v args) true ;;; ret tt).

(** [set(setting, args)] *)
Definition set := setSetting.
(** [get(setting)] *)
Definition get := getSetting.

(** *** The job queue *)

Definition run_job (j : Job) : M unit :=
  match j with
  | CallbackJob setting value (Fulfilled result) =>
      (if JS.strict_eq result (JS.Bool true)
       then updateDOM setting value false
       else updateDOM setting value true) ;;;
      ret tt
  | CallbackJob setting value Rejected =>
      updateDOM setting value true ;;; console_error
  | PersistJob setting v =>
      try_catch (localStorage_setItem setting v) (fun _ => log UnhandledRejection)
  end.

(** Run every queued job, oldest first.  No job of this program queues
    another one. *)
Definition run_jobs : M unit :=
  w <- get_world ;;
  modify (with_jobs []) ;;;
  for_each (jobs w) run_job.

(** One task of the event loop: a synchronous call, then the queue is
    emptied, whether or not the call threw. *)
Definition task {A} (c : M A) : M A :=
  fun w => let r := c w in (r.1, (run_jobs r.2).2).

(** A later task settles the [i]-th pending promise. *)
Definition settle (i : nat) : M unit :=
  w <- get_world ;;
  match waiting w !! i with
  | Some j =>
      modify (with_waiting (delete i (waiting w))) ;;;
      enqueue j ;;;
      run_jobs
  | None => ret tt
  end.

(** *** init *)

(** [setting.i] where [setting] is the variable of
    [for (var setting in this.#settings)]: a string, and strings have no
    member named [i]. *)
Definition member_i (setting : string) : option Initializer := None.

Definition plain_args (v : JS.value) : Args :=
  {| a_v := v; a_s := false; a_this := None |}.

(** Calling an initializer with [{s: this, this: this.#settings[setting]}]. *)
Definition call_initializer (setting : string) (i : Initializer) : M unit :=
  log (CallInitializer setting) ;;;
  match i_sets i with
  | Some v => setSetting setting (plain_args v)
  | None => ret tt
  end ;;;
  if i_throws i then throw CallbackError else ret tt.

Definition init : M unit :=
  w <- get_world ;;
  for_each (JS.keys (settings w))
    (fun setting =>
       match member_i setting with
       | Some i => call_initializer setting i
       | None =>
           v <- getSetting setting ;;
           setSetting setting (plain_args v)
       end).

(** *** #getNextOption and next *)

(** The object [{n: ..., o: ...}] that is returned. *)
Record NextOption : Type := {
  n : JS.value;                       (* n: option name *)
  o : JS.read OptionDefinition }.     (* o: option value *)

(** The keys pushed by [for (var option in settingOptions)]; the loop
    over [undefined] has no iteration. *)
Definition enumerate (options : option (JS.props OptionDefinition)) : list string :=
  match options with
  | Some opts => JS.keys opts
  | None => []
  end.

(** A parameter declared as [currentOption = ""]. *)
Definition default_empty (v : JS.value) : JS.value :=
  match v with
  | JS.Undefined => JS.Str EmptyString
  | _ => v
  end.

Definition getNextOption (setting : string) (currentOption : JS.value) : M NextOption :=
  let currentOption := default_empty currentOption in
  s <- setting_object setting ;;
  settingOptions <- dot_o s ;;
  currentOption <-
    (if JS.strict_eq currentOption (JS.Str EmptyString)
     then getSetting setting else ret currentOption) ;;
  let settingOptionsArray := enumerate settingOptions in
  let currentOptionIndex := JS.indexOf settingOptionsArray currentOption in
  let currentOptionIndex :=
    if currentOptionIndex =? -1
    then JS.indexOf settingOptionsArray (JS.JSON_stringify currentOption)
    else currentOptionIndex in
  if currentOptionIndex =? Z.of_nat (length settingOptionsArray) - 1 then
    first <- option_at settingOptions (JS.Num 0) ;;
    ret {| n := JS.at_index settingOptionsArray 0; o := first |}
  else
    following <- option_at settingOptions (JS.Num (currentOptionIndex + 1)) ;;
    ret {| n := JS.at_index settingOptionsArray (currentOptionIndex + 1);
           o := following |}.

Definition next (setting : string) (currentOption : JS.value) : M NextOption :=
  getNextOption setting currentOption.

(** *** generateDOM and insertDOM *)

Fixpoint map_m {A B} (f : A -> M B) (xs : list A) : M (list B) :=
  match xs with
  | [] => ret []
  | x :: xs' => y <- f x ;; ys <- map_m f xs' ;; ret (y :: ys)
  end.

(** [settingOptions[option].h !== true] *)
Definition shown (od : OptionDefinition) : bool :=
  negb (bool_decide (o_h od = Some true)).

(** [settingOptions[option].d !== undefined && settingOptions[option].d != false] *)
Definition disabled (od : OptionDefinition) : bool :=
  bool_decide (o_d od = Some true).

(** The body of the loop over [settingOptionsArray]: the sub-button of
    one option, unless the option is hidden. *)
Definition sub_button (settingName : string) (settingValue : JS.value)
    (settingOptions : JS.props OptionDefinition) (option : string)
  : M (list SubButton) :=
  match JS.get settingOptions option with
  | JS.Own od =>
      if shown od then
        ret [ {| sb_name := settingName; sb_value := option;
                 sb_label := JS.to_string (o_s od);
                 sb_active := JS.strict_eq (JS.Str option) settingValue;
                 sb_disabled := disabled od |} ]
      else ret []
  | JS.Inherited =>
      ret [ {| sb_name := settingName; sb_value := option;
               sb_label := JS.to_string JS.Undefined;
               sb_active := JS.strict_eq (JS.Str option) settingValue;
               sb_disabled := false |} ]
  | JS.Absent => throw TypeError
  end.

(** The body of the loop over the settings. *)
Definition generate_setting (setting : string) : M (list Element) :=
  s <- setting_object setting ;;
  match s with
  | JS.Own def =>
      let settingValue := s_v def in
      let settingType := d_type (s_d def) in
      let settingOptions := s_o def in
      current <- option_at (Some settingOptions) settingValue ;;
      settingOptionName <- dot_s current ;;
      let submenu := String.eqb settingType "submenu" in
      let settingDOM :=
        {| tb_name := if submenu then setting ++ "Top" else setting;
           tb_value := EmptyString;
           tb_type := settingType;
           tb_desc := JS.to_string (d_description (s_d def));
           tb_attrs := match s_a def with Some a => a | None => [] end;
           tb_label := JS.to_string (d_name (s_d def));
           tb_span := JS.to_string settingOptionName;
           tb_error := false |} in
      if submenu then
        let settingOptionsArray := JS.keys settingOptions in
        first <- option_at (Some settingOptions) (JS.at_index settingOptionsArray 0) ;;
        firstName <- dot_s first ;;
        let settingOptionsArray :=
          if negb (JS.parseFloat_is_NaN firstName)
          then JS.sort_desc settingOptionsArray
          else settingOptionsArray in
        buttons <- map_m (sub_button setting settingValue settingOptions)
                         settingOptionsArray ;;
        ret [Top settingDOM; SubMenu setting (concat buttons)]
      else ret [Top settingDOM]
  | _ => throw TypeError
  end.

Definition generateDOM : M (list Element) :=
  w <- get_world ;;
  fragments <- map_m generate_setting (JS.keys (settings w)) ;;
  ret (concat fragments).

(** The observer that waits for the container to appear. *)
Definition watchForContainer : M unit :=
  w <- get_world ;;
  if watching w then ret tt
  else modify (with_watching true).

Definition insertDOM : M unit :=
  w <- get_world ;;
  match container w with
  | None =>
      console_error ;;; watchForContainer ;;;
      throw TypeError
  | Some children =>
      fragment <- generateDOM ;;
      modify (with_container (Some (children ++ fragment)%list))
  end.

(** *** The constructor *)

Record Parameters : Type := {
  p_settings : nat;                        (* settings: the caller's list *)
  p_container : option (list Element);     (* container, once resolved *)
  p_DOM : bool;
  p_init : bool }.

(** [Object.freeze(obj)]: shallow, it protects the object's own slots. *)
Definition freeze (r : nat) : M unit :=
  modify (fun w =>
    with_heap (alter (fun obj => {| frozen := true; entries := entries obj |}) r (heap w)) w).

Definition constructor (parameters : Parameters) : M unit :=
  modify (fun w => with_refs (p_settings parameters) (defaults_ref w) w) ;;;
  modify (fun w => with_refs (settings_ref w) (settings_ref w) w) ;;;
  w <- get_world ;;
  freeze (defaults_ref w) ;;;
  modify (with_container (p_container parameters)) ;;;
  match p_container parameters with
  | Some _ =>
      (if p_DOM parameters then insertDOM else ret tt) ;;;
      (if p_init parameters
       then try_catch init (fun _ => console_error)
       else ret tt)
  | None => watchForContainer
  end.

(** *** Getters *)

Definition getSettings : M nat := w <- get_world ;; ret (settings_ref w).
Definition getSettingObject (setting : string) : M (JS.read SettingDefinition) :=
  setting_object setting.
Definition getDefaults : M nat := w <- get_world ;; ret (defaults_ref w).
Definition getDefault (setting : string) : M JS.value :=
  d <- default_object setting ;; dot_v d.
Definition getDefaultObject (setting : string) : M (JS.read SettingDefinition) :=
  default_object setting.

(** ** Code outside the engine *)

Definition put_v (v : JS.value) (def : SettingDefinition) : SettingDefinition :=
  {| s_v := v; s_a := s_a def; s_d := s_d def; s_i := s_i def; s_o := s_o def |}.

Fixpoint write_v (setting : string) (v : JS.value)
    (obj : JS.props SettingDefinition) : JS.props SettingDefinition :=
  match obj with
  | [] => []
  | (k, def) :: obj' =>
      if String.eqb k setting then (k, put_v v def) :: obj'
      else (k, def) :: write_v setting v obj'
  end.

(** [obj[setting].v = v], where [obj] is a reference the caller holds:
    the list it gave to the constructor, or what [getSettings()] or
    [getDefaults()] returned.  Freezing [obj] does not protect the
    objects stored in it. *)
Definition external_write_v (obj : nat) (setting : string) (v : JS.value) : M unit :=
  w <- get_world ;;
  match JS.get (object_at obj w) setting with
  | JS.Own _ =>
      modify (fun w =>
        with_heap
          (alter (fun r => {| frozen := frozen r;
                              entries := write_v setting v (entries r) |})
                 obj (heap w)) w)
  | JS.Inherited => ret tt
  | JS.Absent => throw TypeError
  end.

Fixpoint assign (setting : string) (def : SettingDefinition)
    (obj : JS.props SettingDefinition) : JS.props SettingDefinition :=
  match obj with
  | [] => [(setting, def)]
  | (k, d) :: obj' =>
      if String.eqb k setting then (k, def) :: obj'
      else (k, d) :: assign setting def obj'
  end.

(** [obj[setting] = def] by code that is not in strict mode: a frozen
    object ignores it. *)
Definition external_assign (obj : nat) (setting : string) (def : SettingDefinition)
  : M unit :=
  modify (fun w =>
    with_heap
      (alter (fun r => if frozen r then r
                       else {| frozen := false;
                               entries := assign setting def (entries r) |})
             obj (heap w)) w).

(** * The surface: deferred mount and the click listener *)

(** What the engine does not keep in its fields: the classes that
    [toggleSubMenu] puts on the elements of the container, by position,
    and whether the observer of [#watchForContainer] has been
    disconnected. *)
Record Page : Type := {
  engine : World;
  active_tops : gset nat;       (* top buttons with the class active *)
  open_menus : gset nat;        (* panels with the class open *)
  disconnected : bool }.

Definition with_engine (w : World) (p : Page) : Page :=
  {| engine := w; active_tops := active_tops p; open_menus := open_menus p;
     disconnected := disconnected p |}.

Definition with_classes (active open : gset nat) (p : Page) : Page :=
  {| engine := engine p; active_tops := active; open_menus := open;
     disconnected := disconnected p |}.

Definition with_disconnected (b : bool) (p : Page) : Page :=
  {| engine := engine p; active_tops := active_tops p; open_menus := open_menus p;
     disconnected := b |}.

(** Computations on a page. *)
Definition PM (A : Type) : Type := Page -> Completion A * Page.

(** A method of the engine, run on the page. *)
Definition lift {A} (c : M A) : PM A :=
  fun p => ((c (engine p)).1, with_engine (c (engine p)).2 p).

Definition page_bind {A B} (c : PM A) (k : A -> PM B) : PM B :=
  fun p =>
    match c p with
    | (Normal a, p') => k a p'
    | (Throw e, p') => (Throw e, p')
    end.

(** The elements of the container; none when it is absent. *)
Definition document (p : Page) : list Element :=
  match container (engine p) with
  | Some doc => doc
  | None => []
  end.

(** *** #watchForContainer: the observer *)

(** The function [insertDOMAndInit] of [#watchForContainer], with the
    arguments [DOM] and [init] at their default [true]: the method is
    only ever called without arguments. *)
Definition insertDOMAndInit : M unit :=
  try_catch insertDOM (fun _ => console_error) ;;;
  try_catch init (fun _ => console_error).

(** The callback of the mutation observer, run after a change of the
    document; [found] is what [document.querySelector(args.container)]
    finds then.  A disconnected observer is not called.  The container
    is given as a selector: an absent container is one that the selector
    does not find, for which [#resolveElement] answers [null]. *)
Definition mutation (found : option (list Element)) : PM unit :=
  fun p =>
    if watching (engine p) && negb (disconnected p) then
      match found with
      | Some element =>
          page_bind (lift (modify (with_container (Some element)))) (fun _ =>
          page_bind (lift insertDOMAndInit) (fun _ p' =>
          (Normal tt, with_disconnected true p'))) p
      | None => (Normal tt, p)
      end
    else (Normal tt, p).

(** *** toggleSubMenu *)

Fixpoint string_drop (k : nat) (s : string) : string :=
  match k, s with
  | O, _ => s
  | S k', String _ s' => string_drop k' s'
  | S _, EmptyString => EmptyString
  end.

(** [s.replace(pattern, replacement)] with a string pattern: the first
    occurrence only. *)
Fixpoint replace_first (pattern replacement s : string) : string :=
  if String.prefix pattern s
  then replacement ++ string_drop (String.length pattern) s
  else match s with
       | EmptyString => EmptyString
       | String c s' => String c (replace_first pattern replacement s')
       end.

Fixpoint find_menu (id : string) (i : nat) (doc : list Element) : option nat :=
  match doc with
  | [] => None
  | SubMenu id' _ :: doc' =>
      if String.eqb id' id then Some i else find_menu id (S i) doc'
  | Top _ :: doc' => find_menu id (S i) doc'
  end.

(** [document.getElementById(id)]: the position of the first panel with
    that id; only panels carry one, and the empty id finds nothing. *)
Definition getElementById (id : string) (doc : list Element) : option nat :=
  if String.eqb id EmptyString then None else find_menu id 0 doc.

(** [toggleSubMenu(button)] for the top button at position [i].  The
    panels and top buttons of the page are those of the container. *)
Definition toggleSubMenu (i : nat) (button : TopButton) : PM unit :=
  fun p =>
    let settingName := replace_first "Top" EmptyString (tb_name button) in
    let subMenu := getElementById settingName (document p) in
    let closed :=
      with_classes (filter (fun t => t = i) (active_tops p))
                   (filter (fun m => Some m = subMenu) (open_menus p)) p in
    if negb (String.eqb (tb_type button) "cycle") then
      match subMenu with
      | Some m =>
          (Normal tt,
           with_classes ({[ i ]} ∪ active_tops closed) ({[ m ]} ∪ open_menus closed) closed)
      | None => (Throw TypeError, closed)
      end
    else (Normal tt, closed).

(** *** #attachEvents: the click listener *)

(** Where a click lands: on a top button, on a sub-button of a panel, or
    on anything else (the text inside a button, the panel, the
    container). *)
Inductive Target : Type :=
  | AtTop (i : nat)
  | AtSub (i j : nat)
  | Elsewhere.

(** The function given to [addEventListener].  The class name of a top
    button is "TopButton" as long as it is not active, that of a
    sub-button is "SubButton" as long as it is not Active. *)
Definition listener (target : Target) : PM unit :=
  fun p =>
    match target with
    | AtTop i =>
        match document p !! i with
        | Some (Top b) =>
            if bool_decide (i ∈ active_tops p) then (Normal tt, p)
            else if String.eqb (tb_type b) "submenu" then toggleSubMenu i b p
            else if String.eqb (tb_type b) "cycle" then
              page_bind (lift (getNextOption (tb_name b) (JS.Str (tb_value b)))) (fun r =>
              page_bind (lift (setSetting (tb_name b) (plain_args (n r)))) (fun _ =>
              toggleSubMenu i b)) p
            else (Normal tt, p)
        | _ => (Normal tt, p)
        end
    | AtSub i j =>
        match document p !! i with
        | Some (SubMenu _ buttons) =>
            match buttons !! j with
            | Some b =>
                if sb_active b then (Normal tt, p)
                else lift (setSetting (sb_name b) (plain_args (JS.Str (sb_value b)))) p
            | None => (Normal tt, p)
            end
        | _ => (Normal tt, p)
        end
    | Elsewhere => (Normal tt, p)
    end.

(** A button that carries the attribute [disabled] receives no click. *)
Definition enabled (target : Target) (p : Page) : bool :=
  match target with
  | AtTop i =>
      match document p !! i with
      | Some (Top b) => negb (has_attribute "disabled" b)
      | _ => true
      end
  | AtSub i j =>
      match document p !! i with
      | Some (SubMenu _ buttons) =>
          match buttons !! j with
          | Some b => negb (sb_disabled b)
          | None => true
          end
      | _ => true
      end
  | Elsewhere => true
  end.

(** A click of the user: the listener runs, then the job queue, also
    when the listener threw. *)
Definition click (target : Target) : PM unit :=
  fun p =>
    if enabled target p
    then ((listener target p).1, (lift run_jobs (listener target p).2).2)
    else (Normal tt, p).

(** The page of an engine on which nothing is active or open. *)
Definition page_of (w : World) : Page :=
  {| engine := w; active_tops := ∅; open_menus := ∅; disconnected := false |}.

(** * Notions used in the statements *)

(** The computation never changes the given part of the world. *)
Definition keeps {X : Type} (part : World -> X) {A} (c : M A) : Prop :=
  forall w, part (c w).2 = part w.

Definition total {A} (c : M A) : Prop := forall w, exists a, (c w).1 = Normal a.

Definition registry_part (w : World) : gmap nat Registry * nat * nat :=
  (heap w, settings_ref w, defaults_ref w).

(** Whatever the outcome, the final world satisfies [P] if the initial
    one does. *)
Definition preserves (P : World -> Prop) {A} (c : M A) : Prop :=
  forall w, P w -> P (c w).2.

Definition is_initializer_call (e : Event) : bool :=
  match e with CallInitializer _ => true | _ => false end.

Definition initializer_calls (w : World) : list Event :=
  filter (fun e => is_initializer_call e = true) (trace w).

(** The outcome of a computation and the world it leaves. *)
Definition result {A} (c : M A) (w : World) : Completion A := (c w).1.
Definition after {A} (c : M A) (w : World) : World := (c w).2.

(** The key [next(setting, current).n]; [undefined] if the call throws. *)
Definition next_key (w : World) (setting : string) (current : JS.value) : JS.value :=
  match result (next setting current) w with
  | Normal r => n r
  | Throw _ => JS.Undefined
  end.

(** The document that [generateDOM] returns; empty if it throws. *)
Definition generated (w : World) : list Element :=
  match result generateDOM w with
  | Normal doc => doc
  | Throw _ => []
  end.

(** The values of the sub-buttons of a submenu, in document order. *)
Definition rendered_options (setting : string) (doc : list Element) : list string :=
  concat (map (fun e =>
                 match e with
                 | SubMenu id bs => if String.eqb id setting then map sb_value bs else []
                 | Top _ => []
                 end) doc).

(** The engine sees the same settings list, value fields included, in
    [w'] as in [w]. *)
Definition same_registry (w w' : World) : Prop :=
  heap w' = heap w
  /\ settings w' = settings w
  /\ defaults w' = defaults w
  /\ result getSettings w' = result getSettings w
  /\ forall name, result (getSettingObject name) w' = result (getSettingObject name) w.

Definition is_persist (j : Job) : bool :=
  match j with PersistJob _ _ => true | CallbackJob _ _ _ => false end.

(** The writes to [localStorage] that are queued. *)
Definition persist_jobs (w : World) : list Job :=
  filter (fun j => is_persist j = true) (jobs w).

(** What one job does to [localStorage]. *)
Definition store (key : string) (v : JS.value) (st : Storage) : Storage :=
  {| items := <[key := JS.to_string v]> (items st);
     getItem_throws := getItem_throws st;
     setItem_throws := setItem_throws st |}.

Definition job_storage (st : Storage) (j : Job) : Storage :=
  match j with
  | PersistJob setting v => if setItem_throws st then st else store setting v st
  | CallbackJob _ _ _ => st
  end.

(** The index arithmetic of [#getNextOption] on the enumerated keys. *)
Definition successor (keys : list string) (current : JS.value) : JS.value :=
  let i := JS.indexOf keys current in
  let i := if (i =? -1)%Z then JS.indexOf keys (JS.JSON_stringify current) else i in
  if (i =? Z.of_nat (length keys) - 1)%Z then JS.at_index keys 0
  else JS.at_index keys (i + 1).

(** * Settings lists and engines used as test inputs *)

Definition plain_option (name : JS.value) : OptionDefinition :=
  {| o_s := name; o_f := None; o_d := None; o_h := None |}.

Definition option_with (name : JS.value) (f : Callback) : OptionDefinition :=
  {| o_s := name; o_f := Some f; o_d := None; o_h := None |}.

(** The list of [src/example/settings-list.js].  Each option's function
    returns what the setting's [f] returns, [true]; the initializer calls
    [args.s.setValue], which the engine does not have, and so throws. *)
Definition setting1 : SettingDefinition :=
  {| s_v := JS.Str "option1";
     s_a := None;
     s_d := {| d_name := JS.Str "Setting 1";
               d_description :=
                 JS.Str "This setting is used to do something and this is its description.";
               d_type := "cycle" |};
     s_i := Some {| i_sets := None; i_throws := true |};
     s_o := [ ("option1", option_with (JS.Str "Option 1") (Returns (JS.Bool true)));
              ("option2", option_with (JS.Str "Option 2") (Returns (JS.Bool true)));
              ("option3", option_with (JS.Str "Option 3") (Returns (JS.Bool true))) ] |}.

Definition settingsList : JS.props SettingDefinition := [ ("setting1", setting1) ].

(** [{theme: {v: "dark", o: {light: {}, dark: {}}}}] *)
Definition theme : SettingDefinition :=
  {| s_v := JS.Str "dark";
     s_a := None;
     s_d := {| d_name := JS.Str "Theme"; d_description := JS.Str "Colours";
               d_type := "cycle" |};
     s_i := None;
     s_o := [ ("light", plain_option JS.Undefined);
              ("dark", plain_option JS.Undefined) ] |}.

Definition themeList : JS.props SettingDefinition := [ ("theme", theme) ].

(** The example list followed by the theme setting. *)
Definition twoSettings : JS.props SettingDefinition :=
  [ ("setting1", setting1); ("theme", theme) ].

(** A submenu whose options are [{"1": {}, "2": {}, "3": {}}]. *)
Definition level (keys : list string) : SettingDefinition :=
  {| s_v := JS.Str "1";
     s_a := None;
     s_d := {| d_name := JS.Str "Level"; d_description := JS.Str "Level";
               d_type := "submenu" |};
     s_i := None;
     s_o := map (fun k => (k, plain_option JS.Undefined)) keys |}.

Definition levelList (keys : list string) : JS.props SettingDefinition :=
  [ ("level", level keys) ].

(** An option whose function returns a promise that a later task
    fulfils with [true]. *)
Definition quality : SettingDefinition :=
  {| s_v := JS.Str "low";
     s_a := None;
     s_d := {| d_name := JS.Str "Quality"; d_description := JS.Str "Quality";
               d_type := "cycle" |};
     s_i := None;
     s_o := [ ("low", plain_option (JS.Str "Low"));
              ("high", option_with (JS.Str "High") (Pending (Fulfilled (JS.Bool true)))) ] |}.

Definition qualityList : JS.props SettingDefinition := [ ("quality", quality) ].

Definition empty_storage : Storage :=
  {| items := ∅; getItem_throws := false; setItem_throws := false |}.

(** A page before the engine exists.  Object 0 is the caller's settings
    list; references 1 and 2 are the two empty objects the private fields
    start with. *)
Definition page (list : JS.props SettingDefinition) : World :=
  {| heap := {[ 0%nat := {| frozen := false; entries := list |} ]};
     settings_ref := 1; defaults_ref := 2;
     container := None; watching := false;
     storage := empty_storage;
     jobs := []; waiting := []; trace := [] |}.

(** [new SettingsManager({settings: list, container: element, DOM: true,
    init: false})] with an empty container element that is present. *)
Definition new_SettingsManager (list : JS.props SettingDefinition) : World :=
  (constructor {| p_settings := 0; p_container := Some [];
                  p_DOM := true; p_init := false |} (page list)).2.

(** Options whose function reports a failure in each of the three ways:
    it returns [false], its promise is rejected, it throws. *)
Definition mode : SettingDefinition :=
  {| s_v := JS.Str "off";
     s_a := None;
     s_d := {| d_name := JS.Str "Mode"; d_description := JS.Str "Mode";
               d_type := "cycle" |};
     s_i := None;
     s_o := [ ("off", plain_option (JS.Str "Off"));
              ("soft", option_with (JS.Str "Soft") (Returns (JS.Bool false)));
              ("hard", option_with (JS.Str "Hard") (Settled Rejected));
              ("raw", option_with (JS.Str "Raw") Throws) ] |}.

Definition modeList : JS.props SettingDefinition := [ ("mode", mode) ].

(** A submenu whose options carry numeric display names. *)
Definition volume : SettingDefinition :=
  {| s_v := JS.Str "2";
     s_a := None;
     s_d := {| d_name := JS.Str "Volume"; d_description := JS.Str "Volume";
               d_type := "submenu" |};
     s_i := None;
     s_o := [ ("1", plain_option (JS.Str "10"));
              ("2", plain_option (JS.Str "20"));
              ("3", plain_option (JS.Str "30")) ] |}.

Definition volumeList : JS.props SettingDefinition := [ ("volume", volume) ].

(** A cycle one of whose option keys is the empty string. *)
Definition filter_setting : SettingDefinition :=
  {| s_v := JS.Str "a";
     s_a := None;
     s_d := {| d_name := JS.Str "Filter"; d_description := JS.Str "Filter";
               d_type := "cycle" |};
     s_i := None;
     s_o := [ (EmptyString, plain_option (JS.Str "None"));
              ("a", plain_option (JS.Str "A"));
              ("b", plain_option (JS.Str "B")) ] |}.

Definition filterList : JS.props SettingDefinition := [ ("filter", filter_setting) ].

(** A store in which every operation throws. *)
Definition broken_storage : Storage :=
  {| items := ∅; getItem_throws := true; setItem_throws := true |}.

(** The two private fields. *)
Definition refs (w : World) : nat * nat := (settings_ref w, defaults_ref w).

(** The top button of a setting in the container, if any. *)
Definition control (setting : string) (w : World) : option TopButton :=
  match container w with
  | Some doc => find_top setting doc
  | None => None
  end.

(** * Further notions used in the statements *)

Definition is_error_update (e : Event) : bool :=
  match e with CallUpdateDOM _ _ true => true | _ => false end.

(** The calls of [updateDOM] that carry the error flag. *)
Definition error_updates (w : World) : list Event :=
  filter (fun e => is_error_update e = true) (trace w).

(** The document after a successful [updateDOM]. *)
Definition shown_document (setting : string) (settingValue name : JS.value)
    (error : bool) (doc : list Element) : list Element :=
  update_top setting (show_on_top settingValue name error)
    (update_subs setting (show_on_sub settingValue) doc).

(** A computation that neither looks at the world nor changes it. *)
Definition constant {A} (c : M A) : Prop := exists r, forall w, c w = (r, w).


(** The option has a sub-button: it exists and is not hidden. *)
Definition visible (options : JS.props OptionDefinition) (k : string) : bool :=
  match JS.own_get options k with
  | Some od => shown od
  | None => false
  end.

(** [s.includes(pattern)] *)
Fixpoint includes (pattern s : string) : bool :=
  String.prefix pattern s
  || match s with
     | EmptyString => false
     | String _ s' => includes pattern s'
     end.

Definition is_option_call (e : Event) : bool :=
  match e with CallOption _ _ _ => true | _ => false end.

(** The calls of functions of options, oldest first. *)
Definition option_calls (w : World) : list Event :=
  filter (fun e => is_option_call e = true) (trace w).

(** * Further test inputs *)

(** The controls that the level and theme settings are rendered as. *)
Definition level_button (k : string) (active : bool) : SubButton :=
  {| sb_name := "level"; sb_value := k; sb_label := "undefined";
     sb_active := active; sb_disabled := false |}.

Definition level_buttons : list SubButton :=
  [ level_button "1" true; level_button "2" false; level_button "3" false ].

Definition level_top : TopButton :=
  {| tb_name := "levelTop"; tb_value := EmptyString; tb_type := "submenu";
     tb_desc := "Level"; tb_attrs := []; tb_label := "Level";
     tb_span := "undefined"; tb_error := false |}.

Definition theme_top : TopButton :=
  {| tb_name := "theme"; tb_value := EmptyString; tb_type := "cycle";
     tb_desc := "Colours"; tb_attrs := []; tb_label := "Theme";
     tb_span := "undefined"; tb_error := false |}.

(** An engine whose store throws on every operation. *)
Definition with_broken_store (list : JS.props SettingDefinition) : World :=
  with_storage broken_storage (new_SettingsManager list).


(** The parameters of an engine built before its container exists, with
    neither markup nor initialisation asked for. *)
Definition detached : Parameters :=
  {| p_settings := 0; p_container := None; p_DOM := false; p_init := false |}.

(** A submenu whose name begins with [Top]. *)
Definition topSpeedList : JS.props SettingDefinition :=
  [ ("TopSpeed",
     {| s_v := JS.Str "1";
        s_a := None;
        s_d := {| d_name := JS.Str "Top speed"; d_description := JS.Str "Top speed";
                  d_type := "submenu" |};
        s_i := None;
        s_o := [ ("1", plain_option (JS.Str "slow"));
                 ("2", plain_option (JS.Str "fast")) ] |}) ].

Definition top_speed_top : TopButton :=
  {| tb_name := "TopSpeedTop"; tb_value := EmptyString; tb_type := "submenu";
     tb_desc := "Top speed"; tb_attrs := []; tb_label := "Top speed";
     tb_span := "slow"; tb_error := false |}.

(** * Properties *)

(** ** The JavaScript fragment at work *)

Example to_string_num : JS.to_string (JS.Num 42) = "42".
Proof. reflexivity. Qed.

Example keys_order :
  JS.keys [("b", 0); ("10", 1); ("a", 2); ("2", 3); ("01", 4)] = ["2"; "10"; "b"; "a"; "01"].
Proof. vm_compute. reflexivity. Qed.

Example json_string :
  JS.JSON_stringify (JS.Str "a") = JS.Str (String JS.dquote (String "a" (String JS.dquote EmptyString))).
Proof. reflexivity. Qed.

(** ** Frames: what a computation leaves alone *)

Section Frames.
Context {X : Type} (part : World -> X).

Lemma keeps_ret {A} (a : A) : keeps part (ret a).
Proof. intros w. reflexivity. Qed.

Lemma keeps_throw {A} (e : Exn) : keeps part (@throw A e).
Proof. intros w. reflexivity. Qed.

Lemma keeps_get_world : keeps part get_world.
Proof. intros w. reflexivity. Qed.

Lemma keeps_modify (f : World -> World) :
  (forall w, part (f w) = part w) -> keeps part (modify f).
Proof. intros H w. apply H. Qed.

Lemma keeps_bind {A B} (c : M A) (k : A -> M B) :
  keeps part c -> (forall a, keeps part (k a)) -> keeps part (bind c k).
Proof.
  intros Hc Hk w. unfold bind. specialize (Hc w).
  destruct (c w) as [[a|e] w']; simpl in *.
  - rewrite Hk. exact Hc.
  - exact Hc.
Qed.

Lemma keeps_try_catch {A} (c : M A) (h : Exn -> M A) :
  keeps part c -> (forall e, keeps part (h e)) -> keeps part (try_catch c h).
Proof.
  intros Hc Hh w. unfold try_catch. specialize (Hc w).
  destruct (c w) as [[a|e] w']; simpl in *.
  - exact Hc.
  - rewrite Hh. exact Hc.
Qed.

Lemma keeps_for_each {A} (xs : list A) (body : A -> M unit) :
  (forall x, keeps part (body x)) -> keeps part (for_each xs body).
Proof.
  intros H. induction xs as [|x xs IH]; simpl.
  - apply keeps_ret.
  - apply keeps_bind; [apply H | intros _; exact IH].
Qed.

Lemma keeps_map_m {A B} (f : A -> M B) (xs : list A) :
  (forall x, keeps part (f x)) -> keeps part (map_m f xs).
Proof.
  intros H. induction xs as [|x xs IH]; simpl.
  - apply keeps_ret.
  - apply keeps_bind; [apply H | intros y].
    apply keeps_bind; [exact IH | intros ys; apply keeps_ret].
Qed.

End Frames.

(** ** Totality: computations that cannot throw *)

Lemma total_ret {A} (a : A) : total (ret a).
Proof. intros w. exists a. reflexivity. Qed.

Lemma total_get_world : total get_world.
Proof. intros w. exists w. reflexivity. Qed.

Lemma total_modify (f : World -> World) : total (modify f).
Proof. intros w. exists tt. reflexivity. Qed.

Lemma total_bind {A B} (c : M A) (k : A -> M B) :
  total c -> (forall a, total (k a)) -> total (bind c k).
Proof.
  intros Hc Hk w. unfold bind. destruct (Hc w) as [a Ha].
  destruct (c w) as [r w']; simpl in Ha; subst r. apply Hk.
Qed.

Lemma total_try_catch {A} (c : M A) (h : Exn -> M A) :
  (forall e, total (h e)) -> total (try_catch c h).
Proof.
  intros Hh w. unfold try_catch.
  destruct (c w) as [[a|e] w']; [exists a; reflexivity | apply Hh].
Qed.

Lemma total_for_each {A} (xs : list A) (body : A -> M unit) :
  (forall x, total (body x)) -> total (for_each xs body).
Proof.
  intros H. induction xs as [|x xs IH]; simpl.
  - apply total_ret.
  - apply total_bind; [apply H | intros _; exact IH].
Qed.

(** One step of a syntax-directed proof of [keeps] or [total]. *)
Ltac frame_step :=
  lazymatch goal with
  | |- keeps _ (bind _ _) => apply keeps_bind; [| intros ?]
  | |- keeps _ (try_catch _ _) => apply keeps_try_catch; [| intros ?]
  | |- keeps _ (ret _) => apply keeps_ret
  | |- keeps _ (throw _) => apply keeps_throw
  | |- keeps _ get_world => apply keeps_get_world
  | |- keeps _ (modify _) => apply keeps_modify; intros ?; reflexivity
  | |- keeps _ (for_each _ _) => apply keeps_for_each; intros ?
  | |- keeps _ (map_m _ _) => apply keeps_map_m; intros ?
  | |- keeps _ (match ?x with _ => _ end) => destruct x
  | |- total (bind _ _) => apply total_bind; [| intros ?]
  | |- total (try_catch _ _) => apply total_try_catch; intros ?
  | |- total (ret _) => apply total_ret
  | |- total get_world => apply total_get_world
  | |- total (modify _) => apply total_modify
  | |- total (for_each _ _) => apply total_for_each; intros ?
  | |- total (match ?x with _ => _ end) => destruct x
  end.

Create HintDb frames.

Ltac frame := repeat first [ solve [auto with frames] | frame_step ].

(** *** The registry: heap and private references *)

Lemma log_keeps_registry e : keeps registry_part (log e).
Proof. unfold log. frame. Qed.
#[global] Hint Resolve log_keeps_registry : frames.

Lemma log_total e : total (log e).
Proof. unfold log. frame. Qed.
#[global] Hint Resolve log_total : frames.

Lemma updateDOM_keeps_registry setting value error :
  keeps registry_part (updateDOM setting value error).
Proof.
  unfold updateDOM, console_error, value_or_current, setting_object,
    default_object, dot_v, dot_o, dot_s, option_at, field.
  frame.
Qed.
#[global] Hint Resolve updateDOM_keeps_registry : frames.

Lemma updateDOM_total setting value error : total (updateDOM setting value error).
Proof. unfold updateDOM, console_error. frame. Qed.
#[global] Hint Resolve updateDOM_total : frames.

Ltac unfold_reads :=
  unfold console_error, console_log, value_or_current,
    setting_object, default_object, dot_v, dot_o, dot_s, dot_f, option_at,
    field, enqueue, await_later, localStorage_getItem, localStorage_setItem.

Lemma call_option_keeps_registry setting value args f :
  keeps registry_part (call_option setting value args f).
Proof. unfold call_option. unfold_reads. frame. Qed.
#[global] Hint Resolve call_option_keeps_registry : frames.

Lemma executeSetting_keeps_registry setting args :
  keeps registry_part (executeSetting setting args).
Proof. unfold executeSetting. unfold_reads. frame. Qed.
#[global] Hint Resolve executeSetting_keeps_registry : frames.

Lemma setSetting_keeps_registry setting args :
  keeps registry_part (setSetting setting args).
Proof. unfold setSetting. unfold_reads. frame. Qed.
#[global] Hint Resolve setSetting_keeps_registry : frames.

Lemma getSetting_keeps_registry setting : keeps registry_part (getSetting setting).
Proof. unfold getSetting. unfold_reads. frame. Qed.
#[global] Hint Resolve getSetting_keeps_registry : frames.

Lemma run_job_keeps_registry j : keeps registry_part (run_job j).
Proof. unfold run_job. unfold_reads. frame. Qed.
#[global] Hint Resolve run_job_keeps_registry : frames.

Lemma run_jobs_keeps_registry : keeps registry_part run_jobs.
Proof. unfold run_jobs. frame. Qed.
#[global] Hint Resolve run_jobs_keeps_registry : frames.

Lemma settle_keeps_registry i : keeps registry_part (settle i).
Proof. unfold settle. unfold_reads. frame. Qed.
#[global] Hint Resolve settle_keeps_registry : frames.

Lemma task_keeps_registry {A} (c : M A) :
  keeps registry_part c -> keeps registry_part (task c).
Proof.
  intros H w. unfold task. simpl. rewrite run_jobs_keeps_registry. apply H.
Qed.

Lemma init_keeps_registry : keeps registry_part init.
Proof. unfold init, call_initializer. frame. Qed.

Lemma getNextOption_keeps_registry setting current :
  keeps registry_part (getNextOption setting current).
Proof. unfold getNextOption. unfold_reads. cbv zeta. frame. Qed.

(** The engine's view of the list is a function of the registry part. *)
Lemma settings_of_registry_part w w' :
  registry_part w' = registry_part w -> settings w' = settings w /\ defaults w' = defaults w.
Proof.
  unfold registry_part, settings, defaults, object_at.
  intros [= -> -> ->]. split; reflexivity.
Qed.

(** ** Invariants along a computation *)

Section Preservation.
Context (P : World -> Prop).

Lemma preserves_ret {A} (a : A) : preserves P (ret a).
Proof. intros w H. exact H. Qed.

Lemma preserves_throw {A} (e : Exn) : preserves P (@throw A e).
Proof. intros w H. exact H. Qed.

Lemma preserves_get_world : preserves P get_world.
Proof. intros w H. exact H. Qed.

Lemma preserves_modify (f : World -> World) :
  (forall w, P w -> P (f w)) -> preserves P (modify f).
Proof. intros H w Hw. apply H, Hw. Qed.

Lemma preserves_bind {A B} (c : M A) (k : A -> M B) :
  preserves P c -> (forall a, preserves P (k a)) -> preserves P (bind c k).
Proof.
  intros Hc Hk w Hw. unfold bind. specialize (Hc w Hw).
  destruct (c w) as [[a|e] w']; simpl in *; [apply Hk, Hc | exact Hc].
Qed.

Lemma preserves_try_catch {A} (c : M A) (h : Exn -> M A) :
  preserves P c -> (forall e, preserves P (h e)) -> preserves P (try_catch c h).
Proof.
  intros Hc Hh w Hw. unfold try_catch. specialize (Hc w Hw).
  destruct (c w) as [[a|e] w']; simpl in *; [exact Hc | apply Hh, Hc].
Qed.

Lemma preserves_for_each {A} (xs : list A) (body : A -> M unit) :
  (forall x, preserves P (body x)) -> preserves P (for_each xs body).
Proof.
  intros H. induction xs as [|x xs IH]; simpl.
  - apply preserves_ret.
  - apply preserves_bind; [apply H | intros _; exact IH].
Qed.

End Preservation.

Ltac preserve_step side :=
  lazymatch goal with
  | |- preserves _ (bind _ _) => apply preserves_bind; [| intros ?]
  | |- preserves _ (try_catch _ _) => apply preserves_try_catch; [| intros ?]
  | |- preserves _ (ret _) => apply preserves_ret
  | |- preserves _ (throw _) => apply preserves_throw
  | |- preserves _ get_world => apply preserves_get_world
  | |- preserves _ (modify _) => apply preserves_modify; side
  | |- preserves _ (for_each _ _) => apply preserves_for_each; intros ?
  | |- preserves _ (match ?x with _ => _ end) => destruct x
  end.

Ltac preserve side := repeat first [ solve [auto with frames] | preserve_step side ].

(** *** Storage is touched by [setItem] only *)

Lemma log_keeps_storage e : keeps storage (log e).
Proof. unfold log. frame. Qed.
#[global] Hint Resolve log_keeps_storage : frames.

Lemma updateDOM_keeps_storage setting value error :
  keeps storage (updateDOM setting value error).
Proof. unfold updateDOM. unfold_reads. frame. Qed.
#[global] Hint Resolve updateDOM_keeps_storage : frames.

Lemma call_option_keeps_storage setting value args f :
  keeps storage (call_option setting value args f).
Proof. unfold call_option. unfold_reads. frame. Qed.
#[global] Hint Resolve call_option_keeps_storage : frames.

Lemma executeSetting_keeps_storage setting args :
  keeps storage (executeSetting setting args).
Proof. unfold executeSetting. unfold_reads. frame. Qed.
#[global] Hint Resolve executeSetting_keeps_storage : frames.

Lemma getSetting_keeps_storage setting : keeps storage (getSetting setting).
Proof. unfold getSetting. unfold_reads. frame. Qed.
#[global] Hint Resolve getSetting_keeps_storage : frames.

(** *** The trace only grows *)

Lemma log_preserves_event e e' : preserves (fun w => e ∈ trace w) (log e').
Proof.
  unfold log. apply preserves_modify. intros w H. simpl.
  apply elem_of_app. left. exact H.
Qed.
#[global] Hint Resolve log_preserves_event : frames.

Ltac same_trace := intros ? ?; assumption.

Lemma updateDOM_preserves_event e setting value error :
  preserves (fun w => e ∈ trace w) (updateDOM setting value error).
Proof. unfold updateDOM. unfold_reads. preserve same_trace. Qed.
#[global] Hint Resolve updateDOM_preserves_event : frames.

Lemma updateDOM_logged setting value error w :
  CallUpdateDOM setting value error ∈ trace (updateDOM setting value error w).2.
Proof.
  unfold updateDOM at 1.
  match goal with
  | |- _ ∈ trace ((bind (log ?e) ?k) w).2 =>
      change ((bind (log e) k) w) with (k tt (with_trace (trace w ++ [e]) w));
      assert (Hk : preserves (fun w => e ∈ trace w) (k tt))
  end.
  { cbv beta. unfold_reads. preserve same_trace. }
  apply Hk. simpl. apply elem_of_app. right. apply list_elem_of_singleton. reflexivity.
Qed.

(** *** No method but [init] could call an initializer *)

Lemma log_keeps_initializer_calls e :
  is_initializer_call e = false -> keeps initializer_calls (log e).
Proof.
  intros H w. unfold log, initializer_calls. simpl.
  rewrite filter_app, filter_cons_False, filter_nil by congruence.
  apply app_nil_r.
Qed.
#[global] Hint Resolve log_keeps_initializer_calls : frames.
#[global] Hint Extern 1 (is_initializer_call _ = false) => reflexivity : frames.

Ltac unfold_quiet_reads :=
  unfold value_or_current, setting_object, default_object, dot_v, dot_o, dot_s,
    dot_f, option_at, field, enqueue, await_later, localStorage_getItem.

Lemma setItem_keeps_initializer_calls key v :
  keeps initializer_calls (localStorage_setItem key v).
Proof. unfold localStorage_setItem. frame. Qed.
#[global] Hint Resolve setItem_keeps_initializer_calls : frames.

Lemma updateDOM_keeps_initializer_calls setting value error :
  keeps initializer_calls (updateDOM setting value error).
Proof. unfold updateDOM, console_error. unfold_quiet_reads. frame. Qed.
#[global] Hint Resolve updateDOM_keeps_initializer_calls : frames.

Lemma executeSetting_keeps_initializer_calls setting args :
  keeps initializer_calls (executeSetting setting args).
Proof.
  unfold executeSetting, call_option, console_error. unfold_quiet_reads. frame.
Qed.
#[global] Hint Resolve executeSetting_keeps_initializer_calls : frames.

Lemma setSetting_keeps_initializer_calls setting args :
  keeps initializer_calls (setSetting setting args).
Proof. unfold setSetting, console_error. unfold_quiet_reads. frame. Qed.
#[global] Hint Resolve setSetting_keeps_initializer_calls : frames.

Lemma getSetting_keeps_initializer_calls setting :
  keeps initializer_calls (getSetting setting).
Proof. unfold getSetting, console_log. unfold_quiet_reads. frame. Qed.
#[global] Hint Resolve getSetting_keeps_initializer_calls : frames.


(** The scenario of the theme setting: set, get, and cycling both ways. *)
Example theme_scenario :
  let w := after (set "theme" (plain_args (JS.Str "light"))) (new_SettingsManager themeList) in
  result (get "theme") w = Normal (JS.Str "light")
  /\ next_key w "theme" (JS.Str "light") = JS.Str "dark"
  /\ next_key w "theme" (JS.Str "dark") = JS.Str "light".
Proof. vm_compute. repeat split. Qed.

(** * The claims, on concrete engines *)

(** C1, as stated, fails.  The options of the example list declare a
    function, so [setSetting] leaves the write to [localStorage] to a
    job: ["option2"] is a key of the options, the store does not throw,
    [set] returns normally, and a [get] that follows at once still
    answers the in-memory value ["option1"]. *)
Lemma get_right_after_set_is_stale :
  let w := new_SettingsManager settingsList in
  let args := plain_args (JS.Str "option2") in
  is_Some (JS.own_get (s_o setting1) "option2")
  /\ setItem_throws (storage w) = false
  /\ getItem_throws (storage w) = false
  /\ result (set "setting1" args) w = Normal tt
  /\ result (get "setting1") (after (set "setting1" args) w) = Normal (JS.Str "option1")
  /\ result (get "setting1") (after (set "setting1" args) w) <> Normal (JS.Str "option2").
Proof. vm_compute. repeat split; eauto; discriminate. Qed.

(** C2: a value that is not a key of the options must be refused, the
    stored value left alone and the error flag raised.  The code tests
    [settingOptions[args.v] !== undefined], which also finds what every
    object inherits: ["constructor"] is no key of the options of the
    example list, yet [set] stores it and updates the control with no
    error. *)
Theorem set_accepts_inherited_name :
  let w := new_SettingsManager settingsList in
  let w' := after (set "setting1" (plain_args (JS.Str "constructor"))) w in
  JS.own_get (s_o setting1) "constructor" = None
  /\ result (get "setting1") w = Normal (JS.Str "option1")
  /\ result (get "setting1") w' = Normal (JS.Str "constructor")
  /\ items (storage w') !! "setting1" = Some "constructor"
  /\ trace w' = [ CallSet "setting1" (JS.Str "constructor");
                  SetItem "setting1" "constructor";
                  CallUpdateDOM "setting1" (JS.Str "constructor") false ].
Proof. vm_compute. repeat split. Qed.

(** C3: the defaults are to be an immutable deep copy, apart from the
    working settings.  The constructor assigns [this.#defaults =
    this.#settings]: both fields hold the caller's own object, and a
    write through [getSettings()] shows through [getDefaults()]. *)
Theorem defaults_alias_the_working_copy :
  let w := new_SettingsManager themeList in
  let w' := after (external_write_v (settings_ref w) "theme" (JS.Str "light")) w in
  result getDefaults w = result getSettings w
  /\ result getSettings w = Normal 0%nat
  /\ result (getDefault "theme") w = Normal (JS.Str "dark")
  /\ result (getDefault "theme") w' = Normal (JS.Str "light").
Proof. vm_compute. repeat split. Qed.

(** C4: a setting that declares an initializer is to be started by its
    initializer alone.  [init] tests [setting.i] on the key: for the
    example list, whose setting declares one, the initializer is not
    called and [setSetting] is called with the resolved value. *)
Theorem init_skips_the_initializer :
  let w := new_SettingsManager settingsList in
  is_Some (s_i setting1)
  /\ result init w = Normal tt
  /\ trace (after init w) =
       [ CallSet "setting1" (JS.Str "option1");
         CallOption "setting1" "option1"
           {| a_v := JS.Str "option1"; a_s := true; a_this := Some "setting1" |} ].
Proof. vm_compute. repeat split; eauto. Qed.

(** C5: with an initializer that throws, [init] is to go through every
    setting and report one failure at the end.  On a list whose first
    setting has such an initializer, [init] and the jobs it queues end
    normally, log no error and call no initializer: nothing is
    reported. *)
Theorem init_reports_no_failure :
  let w := new_SettingsManager twoSettings in
  i_throws <$> s_i setting1 = Some true
  /\ result (task init) w = Normal tt
  /\ trace (after (task init) w) =
       [ CallSet "setting1" (JS.Str "option1");
         CallOption "setting1" "option1"
           {| a_v := JS.Str "option1"; a_s := true; a_this := Some "setting1" |};
         CallSet "theme" (JS.Str "dark");
         SetItem "theme" "dark";
         CallUpdateDOM "theme" (JS.Str "dark") false;
         CallUpdateDOM "setting1" (JS.Str "option1") false;
         SetItem "setting1" "option1" ].
Proof. vm_compute. repeat split. Qed.

(** C6: the value is to be stored only after the option's function has
    resolved.  [executeSetting] does not return the promise of its async
    arrow, so the [await] in [setSetting] waits for nothing: when the
    function returns a promise that a later task settles, the value is
    in [localStorage] at the end of the calling task, while the reaction
    to the promise is still waiting and the control has not been
    updated. *)
Theorem persisted_before_the_callback_settles :
  let w := new_SettingsManager qualityList in
  let w' := after (task (set "quality" (plain_args (JS.Str "high")))) w in
  items (storage w') !! "quality" = Some "high"
  /\ waiting w' = [ CallbackJob "quality" (JS.Str "high") (Fulfilled (JS.Bool true)) ]
  /\ trace w' =
       [ CallSet "quality" (JS.Str "high");
         CallOption "quality" "high"
           {| a_v := JS.Str "high"; a_s := true; a_this := Some "quality" |};
         SetItem "quality" "high" ]
  /\ trace (after (settle 0) w') =
       (trace w' ++ [ CallUpdateDOM "quality" (JS.Str "high") false ])%list.
Proof. vm_compute. repeat split. Qed.

(** C7, as stated, fails.  Enumeration puts integer keys first, in
    ascending order: for options written in the order 1, 3, 2 the last
    key written is "2" and the first is "1", but the key after "2" is
    "3". *)
Lemma wrap_follows_enumeration_order :
  let w := new_SettingsManager (levelList ["1"; "3"; "2"]) in
  let options := s_o (level ["1"; "3"; "2"]) in
  last (JS.own_keys options) = Some "2"
  /\ head (JS.own_keys options) = Some "1"
  /\ next_key w "level" (JS.Str "2") = JS.Str "3"
  /\ next_key w "level" (JS.Str "2") <> JS.Str "1".
Proof. vm_compute. repeat split; discriminate. Qed.

(** C8: the definition returned is to be the one stored under the next
    key.  The code reads [settingOptions[currentOptionIndex + 1]] and
    [settingOptions[0]], the options object at a number: for the theme
    setting the next key is right and the definition is [undefined]. *)
Theorem next_returns_no_definition :
  let w := new_SettingsManager themeList in
  is_Some (JS.own_get (s_o theme) "dark")
  /\ result (next "theme" (JS.Str "light")) w
     = Normal {| n := JS.Str "dark"; o := JS.Absent |}
  /\ result (next "theme" (JS.Str "dark")) w
     = Normal {| n := JS.Str "light"; o := JS.Absent |}.
Proof. vm_compute. repeat split; eauto. Qed.

(** C9: options keyed 1, 2, 3 are to be rendered 3, 2, 1.  The code
    sorts when [parseFloat] accepts the display name [s] of the first
    option, not its key; the options of the scenario have no display
    name, nothing is sorted, and the sub-buttons come in enumeration
    order 1, 2, 3, whatever the order of declaration. *)
Theorem numeric_keys_render_ascending :
  rendered_options "level"
    (generated (new_SettingsManager (levelList ["1"; "2"; "3"]))) = ["1"; "2"; "3"]
  /\ rendered_options "level"
       (generated (new_SettingsManager (levelList ["3"; "2"; "1"]))) = ["1"; "2"; "3"]
  /\ rendered_options "level"
       (generated (new_SettingsManager (levelList ["2"; "3"; "1"]))) = ["1"; "2"; "3"].
Proof. vm_compute. repeat split. Qed.

(** * The claims, for every engine *)

Lemma same_registry_of_part w w' :
  registry_part w' = registry_part w -> same_registry w w'.
Proof.
  intros H. destruct (settings_of_registry_part _ _ H) as [Hs Hd].
  unfold registry_part in H. injection H as Hh Hr Hd'.
  repeat split; try assumption.
  - unfold result, getSettings, bind, get_world, ret. simpl. rewrite Hr. reflexivity.
  - intros name. unfold result, getSettingObject, setting_object, bind, get_world, ret.
    simpl. rewrite Hs. reflexivity.
Qed.

(** C10: whatever the setting name and the argument, and whether the
    call stores the value, refuses it, throws or meets a storage error,
    [setSetting] leaves the settings list as it was, the [v] of every
    setting included: when the call ends, when the jobs it queued have
    run, and when a promise of an option's function is settled later.
    (The functions of the options are taken not to write to the list
    themselves.) *)
Theorem setSetting_leaves_the_registry (setting : string) (args : Args) (w : World) :
  let w1 := after (setSetting setting args) w in
  let w2 := after run_jobs w1 in
  same_registry w w1
  /\ same_registry w w2
  /\ forall i, same_registry w (after (settle i) w2).
Proof.
  intros w1 w2.
  assert (H1 : registry_part w1 = registry_part w)
    by apply setSetting_keeps_registry.
  assert (H2 : registry_part w2 = registry_part w).
  { unfold w2, after. rewrite run_jobs_keeps_registry. exact H1. }
  split; [| split].
  - apply same_registry_of_part, H1.
  - apply same_registry_of_part, H2.
  - intros i. apply same_registry_of_part.
    unfold after. rewrite settle_keeps_registry. exact H2.
Qed.

(** ** Reading back what was set *)

Lemma get_own {A} (obj : JS.props A) (k : string) (a : A) :
  JS.own_get obj k = Some a -> JS.get obj k = JS.Own a.
Proof. unfold JS.get. intros ->. reflexivity. Qed.

Lemma defaults_are_settings w :
  defaults_ref w = settings_ref w -> defaults w = settings w.
Proof. unfold defaults, settings. intros ->. reflexivity. Qed.

Lemma bind_run {A B} (c : M A) (k : A -> M B) w a w' :
  c w = (Normal a, w') -> bind c k w = k a w'.
Proof. unfold bind. intros ->. reflexivity. Qed.

Lemma try_run {A} (c : M A) (h : Exn -> M A) w a w' :
  c w = (Normal a, w') -> try_catch c h w = (Normal a, w').
Proof. unfold try_catch. intros ->. reflexivity. Qed.

Lemma catch_run {A} (c : M A) (h : Exn -> M A) w e w' :
  c w = (Throw e, w') -> try_catch c h w = h e w'.
Proof. unfold try_catch. intros ->. reflexivity. Qed.

Lemma setting_object_own w setting def :
  JS.own_get (settings w) setting = Some def ->
  setting_object setting w = (Normal (JS.Own def), w).
Proof.
  intros H. unfold setting_object, bind, get_world, ret.
  rewrite (get_own _ _ _ H). reflexivity.
Qed.

(** Evaluate the monadic skeleton, leaving the reads of the list. *)
Ltac run_reads :=
  cbn [bind ret throw get_world setting_object default_object dot_v field fst snd].

Lemma value_or_current_reads w setting def x :
  JS.own_get (settings w) setting = Some def ->
  defaults w = settings w ->
  exists v, value_or_current setting x w = (Normal v, w).
Proof.
  intros H Hd. unfold value_or_current.
  destruct (JS.truthy x); [eexists; reflexivity|].
  run_reads. rewrite (get_own _ _ _ H). run_reads.
  destruct (JS.truthy (s_v def)); [eexists; reflexivity|].
  run_reads. rewrite Hd, (get_own _ _ _ H). eexists; reflexivity.
Qed.

Lemma log_keeps_persist_jobs e : keeps persist_jobs (log e).
Proof. unfold log. frame. Qed.
#[global] Hint Resolve log_keeps_persist_jobs : frames.

Lemma updateDOM_keeps_jobs setting value error :
  keeps jobs (updateDOM setting value error).
Proof. unfold updateDOM. unfold_reads. unfold log. frame. Qed.

Lemma updateDOM_keeps_persist_jobs setting value error :
  keeps persist_jobs (updateDOM setting value error).
Proof.
  intros w. unfold persist_jobs. rewrite updateDOM_keeps_jobs. reflexivity.
Qed.
#[global] Hint Resolve updateDOM_keeps_persist_jobs : frames.

Lemma enqueue_callback_keeps_persist_jobs setting value s :
  keeps persist_jobs (enqueue (CallbackJob setting value s)).
Proof.
  intros w. unfold enqueue, persist_jobs. simpl.
  rewrite filter_app, filter_cons_False, filter_nil by (simpl; congruence).
  apply app_nil_r.
Qed.
#[global] Hint Resolve enqueue_callback_keeps_persist_jobs : frames.

Lemma executeSetting_keeps_persist_jobs setting args :
  keeps persist_jobs (executeSetting setting args).
Proof.
  unfold executeSetting, call_option, console_error.
  unfold value_or_current, setting_object, default_object, dot_v, dot_o, dot_s,
    dot_f, option_at, field, await_later.
  frame.
Qed.

Lemma executeSetting_returns w setting def args :
  JS.own_get (settings w) setting = Some def ->
  defaults w = settings w ->
  result (executeSetting setting args) w = Normal tt.
Proof.
  intros H Hd. unfold result, executeSetting.
  destruct (value_or_current_reads w setting def (x_value args) H Hd) as [v Hv].
  rewrite (bind_run _ _ _ _ _ Hv).
  rewrite (bind_run _ _ _ _ _ (setting_object_own _ _ _ H)).
  rewrite (bind_run _ _ w (Some (s_o def)) w) by reflexivity.
  match goal with
  | |- (try_catch ?c ?h w).1 = _ =>
      destruct (total_try_catch c h (fun _ => log_total _) w) as [[] Ht]; exact Ht
  end.
Qed.

Lemma executeSetting_spec w setting def args :
  JS.own_get (settings w) setting = Some def ->
  defaults w = settings w ->
  exists w', executeSetting setting args w = (Normal tt, w')
             /\ storage w' = storage w
             /\ persist_jobs w' = persist_jobs w.
Proof.
  intros H Hd.
  pose proof (executeSetting_returns w setting def args H Hd) as Hr.
  pose proof (executeSetting_keeps_storage setting args w) as Hs.
  pose proof (executeSetting_keeps_persist_jobs setting args w) as Hj.
  unfold result in Hr.
  destruct (executeSetting setting args w) as [r w']; simpl in *; subst r.
  exists w'. auto.
Qed.

Lemma run_job_total j : total (run_job j).
Proof. unfold run_job, console_error. frame. Qed.

Lemma run_job_spec j w :
  result (run_job j) w = Normal tt
  /\ storage (after (run_job j) w) = job_storage (storage w) j.
Proof.
  split.
  - destruct (run_job_total j w) as [[] H]. exact H.
  - destruct j as [setting v | setting value s]; simpl.
    + unfold after, try_catch, localStorage_setItem, bind, get_world, throw, modify, log.
      simpl. destruct (setItem_throws (storage w)); reflexivity.
    + unfold after. destruct s as [r|]; simpl.
      * destruct (JS.strict_eq r (JS.Bool true)); unfold bind;
          match goal with
          | |- storage (let (_, _) := updateDOM ?a ?b ?c w in _).2 = _ =>
              pose proof (updateDOM_keeps_storage a b c w) as Hs;
              destruct (updateDOM a b c w) as [[?|?] ?]; exact Hs
          end.
      * unfold bind.
        pose proof (updateDOM_keeps_storage setting value true w) as Hs.
        destruct (updateDOM setting value true w) as [[?|?] ?]; exact Hs.
Qed.

Lemma run_all_spec js w :
  result (for_each js run_job) w = Normal tt
  /\ storage (after (for_each js run_job) w) = foldl job_storage (storage w) js.
Proof.
  revert w. induction js as [|j js IH]; intros w; simpl.
  - split; reflexivity.
  - destruct (run_job_spec j w) as [Hr Hs]. unfold result, after in *.
    unfold bind. destruct (run_job j w) as [r w']; simpl in *; subst r.
    rewrite <- Hs. apply IH.
Qed.

Lemma run_jobs_spec w :
  result run_jobs w = Normal tt
  /\ storage (after run_jobs w) = foldl job_storage (storage w) (jobs w).
Proof. apply (run_all_spec (jobs w) (with_jobs [] w)). Qed.

Lemma callbacks_store_nothing st js :
  foldl job_storage st js
  = foldl job_storage st (filter (fun j => is_persist j = true) js).
Proof.
  revert st. induction js as [|j js IH]; intros st; [reflexivity|].
  destruct j.
  - rewrite filter_cons_True by reflexivity. simpl. apply IH.
  - rewrite filter_cons_False by (simpl; congruence). simpl. apply IH.
Qed.

Lemma getSetting_stored w setting k :
  getItem_throws (storage w) = false ->
  items (storage w) !! setting = Some k ->
  result (getSetting setting) w = Normal (JS.Str k).
Proof.
  intros Hg Hk.
  unfold result, getSetting, try_catch, localStorage_getItem, bind, get_world.
  simpl. rewrite Hg. unfold ret. rewrite Hk. reflexivity.
Qed.

Lemma setItem_run w key v :
  setItem_throws (storage w) = false ->
  localStorage_setItem key v w
  = (Normal tt,
     with_trace (trace w ++ [SetItem key (JS.to_string v)])%list
       (with_storage (store key v (storage w)) w)).
Proof.
  intros H. unfold localStorage_setItem, bind, get_world. rewrite H. reflexivity.
Qed.

Lemma updateDOM_run w setting value error :
  exists b w', updateDOM setting value error w = (Normal b, w')
               /\ storage w' = storage w /\ jobs w' = jobs w.
Proof.
  pose proof (updateDOM_keeps_storage setting value error w) as Hs.
  pose proof (updateDOM_keeps_jobs setting value error w) as Hj.
  destruct (updateDOM_total setting value error w) as [b Hb].
  destruct (updateDOM setting value error w) as [r w']; simpl in *; subst r.
  exists b, w'. auto.
Qed.

(** The two ways a valid [set] ends: the value is stored at once, or a
    job that stores it is appended to the queue. *)
Lemma setSetting_valid w setting k def od args :
  JS.own_get (settings w) setting = Some def ->
  defaults w = settings w ->
  JS.own_get (s_o def) k = Some od ->
  a_v args = JS.Str k ->
  setItem_throws (storage w) = false ->
  exists w1, setSetting setting args w = (Normal tt, w1)
    /\ ((o_f od = None /\ storage w1 = store setting (JS.Str k) (storage w)
         /\ jobs w1 = jobs w)
        \/ (o_f od <> None /\ storage w1 = storage w
            /\ exists l, jobs w1 = (l ++ [PersistJob setting (JS.Str k)])%list
                 /\ filter (fun j => is_persist j = true) l = persist_jobs w)).
Proof.
  intros Hs Hd Hk Hv Hp. unfold setSetting. rewrite Hv.
  erewrite bind_run; [| reflexivity]; cbv beta iota.
  set (wa := with_trace _ w).
  erewrite bind_run; [| apply setting_object_own; exact Hs]; cbv beta iota.
  erewrite bind_run; [| reflexivity]; cbv beta iota.
  assert (Hopt : option_at (Some (s_o def)) (JS.Str k) wa = (Normal (JS.Own od), wa)).
  { unfold option_at, ret. simpl. rewrite (get_own _ _ _ Hk). reflexivity. }
  destruct (o_f od) as [cb|] eqn:Hf.
  - destruct (executeSetting_spec wa setting def
                {| x_value := JS.Str k; x_args := Some args |} Hs Hd)
      as (wb & Hx & Hxs & Hxj).
    exists (with_jobs (jobs wb ++ [PersistJob setting (JS.Str k)])%list wb). split.
    + erewrite try_run; [reflexivity|].
      erewrite bind_run; [| exact Hopt]; cbv beta iota.
      erewrite try_run; [reflexivity|].
      erewrite bind_run; [| unfold dot_f, field; rewrite Hf; reflexivity]; cbv beta iota.
      erewrite try_run; [reflexivity|].
      erewrite bind_run; [| exact Hx]; cbv beta iota. reflexivity.
    + right. split; [congruence|]. split; [exact Hxs|].
      exists (jobs wb). split; [reflexivity | exact Hxj].
  - destruct (updateDOM_run
                (with_trace (trace wa ++ [SetItem setting (JS.to_string (JS.Str k))])%list
                   (with_storage (store setting (JS.Str k) (storage wa)) wa))
                setting (JS.Str k) false) as (b & wc & Hu & Hus & Huj).
    exists wc. split.
    + erewrite try_run; [reflexivity|].
      erewrite bind_run; [| exact Hopt]; cbv beta iota.
      erewrite try_run; [reflexivity|].
      erewrite bind_run; [| unfold dot_f, field; rewrite Hf; reflexivity]; cbv beta iota.
      erewrite try_run; [reflexivity|].
      erewrite bind_run; [| apply setItem_run; exact Hp]; cbv beta iota.
      erewrite bind_run; [| exact Hu]; cbv beta iota. reflexivity.
    + left. split; [reflexivity|]. split; [exact Hus | exact Huj].
Qed.

(** C1, amended: on an engine whose two private fields hold the same
    list, as the constructor leaves them, let [set(S, {v})] be called on
    a registered setting with [v] a key of its options, when no job is
    pending and the store does not throw.  The call returns normally;
    once the jobs it queued have run, [get(S)] returns [v]; and when the
    option of [v] declares no function, [get(S)] returns [v] as soon as
    the call has returned. *)
Theorem set_then_get (w : World) (setting k : string) (def : SettingDefinition)
    (od : OptionDefinition) (args : Args) :
  JS.own_get (settings w) setting = Some def ->
  defaults_ref w = settings_ref w ->
  JS.own_get (s_o def) k = Some od ->
  a_v args = JS.Str k ->
  getItem_throws (storage w) = false ->
  setItem_throws (storage w) = false ->
  jobs w = [] ->
  let w1 := after (set setting args) w in
  result (set setting args) w = Normal tt
  /\ result (get setting) (after run_jobs w1) = Normal (JS.Str k)
  /\ (o_f od = None -> result (get setting) w1 = Normal (JS.Str k)).
Proof.
  intros Hs Hr Hk Hv Hg Hp Hj w1.
  destruct (setSetting_valid w setting k def od args Hs (defaults_are_settings w Hr)
              Hk Hv Hp) as (w1' & Hrun & Hcases).
  assert (w1 = w1') as -> by (unfold w1, after, set; rewrite Hrun; reflexivity).
  unfold result, set, get. rewrite Hrun. split; [reflexivity|].
  destruct (run_jobs_spec w1') as [_ Hst]. unfold after in Hst.
  destruct Hcases as [(Hf & Hst1 & Hj1) | (Hf & Hst1 & l & Hj1 & Hl)].
  - assert (Hnow : result (getSetting setting) w1' = Normal (JS.Str k)).
    { apply getSetting_stored; rewrite Hst1; simpl; [exact Hg | apply lookup_insert_eq]. }
    split; [| intros _; exact Hnow].
    apply getSetting_stored; unfold after; rewrite Hst, Hj1, Hj; simpl;
      rewrite Hst1; simpl; [exact Hg | apply lookup_insert_eq].
  - split; [| intros Hn; contradiction].
    assert (Hfinal : storage (run_jobs w1').2 = store setting (JS.Str k) (storage w)).
    { rewrite Hst, Hj1, foldl_app. simpl.
      rewrite callbacks_store_nothing, Hl. unfold persist_jobs. rewrite Hj. simpl.
      rewrite Hst1, Hp. reflexivity. }
    apply getSetting_stored; unfold after; rewrite Hfinal; simpl;
      [exact Hg | apply lookup_insert_eq].
Qed.

(** ** Enumeration order *)

Lemma insert_index_perm x l : JS.insert_index x l ≡ₚ x :: l.
Proof.
  induction l as [|y l IH]; simpl; [reflexivity|].
  destruct (x.1 <=? y.1)%N; [reflexivity|].
  rewrite IH. apply Permutation_swap.
Qed.

Lemma sort_indices_perm l : JS.sort_indices l ≡ₚ l.
Proof.
  induction l as [|x l IH]; simpl; [reflexivity|].
  unfold JS.sort_indices in *. simpl. rewrite insert_index_perm, IH. reflexivity.
Qed.

Lemma index_and_name_keys ks :
  ((JS.index_keys ks).*2 ++ JS.name_keys ks)%list ≡ₚ ks.
Proof.
  induction ks as [|k ks IH]; [reflexivity|].
  unfold JS.index_keys, JS.name_keys in *. simpl.
  destruct (JS.array_index k) as [i|] eqn:E; simpl.
  - rewrite filter_cons_False by (rewrite E; discriminate). simpl.
    rewrite IH. reflexivity.
  - rewrite filter_cons_True by exact E.
    rewrite <- Permutation_middle. rewrite IH. reflexivity.
Qed.

(** Enumeration visits every own key once. *)
Lemma keys_perm {A} (obj : JS.props A) : JS.keys obj ≡ₚ JS.own_keys obj.
Proof.
  unfold JS.keys. rewrite sort_indices_perm. apply index_and_name_keys.
Qed.

(** Without integer-like keys, enumeration order is insertion order. *)
Lemma keys_insertion_order {A} (obj : JS.props A) :
  (forall k, k ∈ JS.own_keys obj -> JS.array_index k = None) ->
  JS.keys obj = JS.own_keys obj.
Proof.
  unfold JS.keys. generalize (JS.own_keys obj). intros ks H.
  assert (Hi : JS.index_keys ks = []).
  { induction ks as [|k ks IH]; [reflexivity|].
    unfold JS.index_keys in *. simpl. rewrite (H k) by left. simpl.
    apply IH. intros k' Hk'. apply H. right. exact Hk'. }
  rewrite Hi. simpl.
  induction ks as [|k ks IH]; [reflexivity|].
  unfold JS.name_keys in *. rewrite filter_cons_True by (apply H; left).
  f_equal. apply IH.
  - intros k' Hk'. apply H. right. exact Hk'.
  - unfold JS.index_keys in *. simpl in Hi. rewrite (H k) in Hi by left. exact Hi.
Qed.

(** ** The successor of a key *)

Lemma index_of_from_lookup (keys : list string) (i : nat) (k : string) (s : Z) :
  NoDup keys -> keys !! i = Some k ->
  JS.index_of_from s keys k = (s + Z.of_nat i)%Z.
Proof.
  revert i s. induction keys as [|x keys IH]; intros i s Hn Hi; [discriminate|].
  apply NoDup_cons in Hn as [Hx Hn]. simpl.
  destruct i as [|i]; simpl in Hi.
  - injection Hi as ->. rewrite String.eqb_refl. lia.
  - destruct (String.eqb_spec x k) as [->|_].
    + exfalso. apply Hx. eapply list_elem_of_lookup_2. exact Hi.
    + rewrite (IH i (s + 1)%Z Hn Hi). lia.
Qed.

Lemma at_index_nat (keys : list string) (i : nat) :
  JS.at_index keys (Z.of_nat i)
  = match keys !! i with Some k => JS.Str k | None => JS.Undefined end.
Proof.
  unfold JS.at_index. destruct (Z.ltb_spec (Z.of_nat i) 0); [lia|].
  rewrite Nat2Z.id. reflexivity.
Qed.

Lemma successor_at (keys : list string) (i : nat) :
  NoDup keys -> (i < length keys)%nat ->
  successor keys (JS.at_index keys (Z.of_nat i))
  = JS.at_index keys (Z.of_nat (S i mod length keys)).
Proof.
  intros Hn Hi. rewrite at_index_nat.
  destruct (lookup_lt_is_Some_2 keys i Hi) as [k Hk]. rewrite Hk.
  assert (Hidx : JS.indexOf keys (JS.Str k) = Z.of_nat i).
  { simpl. rewrite (index_of_from_lookup keys i k 0 Hn Hk). lia. }
  unfold successor. cbv zeta. rewrite !Hidx.
  destruct (Z.eqb_spec (Z.of_nat i) (-1)); [lia|].
  destruct (Z.eqb_spec (Z.of_nat i) (Z.of_nat (length keys) - 1)) as [E|E].
  - replace (S i) with (length keys) by lia. rewrite Nat.Div0.mod_same. reflexivity.
  - rewrite Nat.mod_small by lia. f_equal. lia.
Qed.

Lemma option_at_some w options key :
  option_at (Some options) key w = (Normal (JS.get options (JS.to_string key)), w).
Proof. reflexivity. Qed.

(** For a registered setting and a current option that is given,
    [next] changes nothing and answers the successor. *)
Lemma next_run w setting def current :
  JS.own_get (settings w) setting = Some def ->
  current <> JS.Undefined ->
  current <> JS.Str EmptyString ->
  exists definition,
    next setting current w
    = (Normal {| n := successor (JS.keys (s_o def)) current; o := definition |}, w).
Proof.
  intros Hs Hu He. unfold next, getNextOption. cbv zeta.
  assert (default_empty current = current) as -> by (destruct current; simpl; congruence).
  erewrite bind_run; [| apply setting_object_own; exact Hs]; cbv beta iota.
  erewrite bind_run; [| reflexivity]; cbv beta iota.
  unfold JS.strict_eq. rewrite bool_decide_eq_false_2 by exact He.
  erewrite bind_run; [| reflexivity]; cbv beta iota.
  unfold successor, enumerate. cbv zeta.
  match goal with |- context [if ?c then bind _ _ else _] => destruct c end;
    (erewrite bind_run; [| apply option_at_some]); cbv beta iota;
    eexists; reflexivity.
Qed.

Lemma getSetting_total setting : total (getSetting setting).
Proof. unfold getSetting, console_log. frame. Qed.

(** [next] returns for every current option, given or not, once the
    setting is registered. *)
Lemma next_total w setting def current :
  JS.own_get (settings w) setting = Some def ->
  exists r, result (next setting current) w = Normal r.
Proof.
  intros Hs. unfold result, next, getNextOption. cbv zeta.
  erewrite bind_run; [| apply setting_object_own; exact Hs]; cbv beta iota.
  erewrite bind_run; [| reflexivity]; cbv beta iota.
  match goal with
  | |- context [bind ?c _ w] =>
      assert (Hc : exists v w', c w = (Normal v, w'))
  end.
  { destruct (JS.strict_eq _ _).
    - destruct (getSetting_total setting w) as [v Hv].
      destruct (getSetting setting w) as [r w'] eqn:E. simpl in Hv. subst r.
      exists v, w'. reflexivity.
    - eexists _, _. reflexivity. }
  destruct Hc as (v & w' & Hc).
  erewrite bind_run; [| exact Hc]; cbv beta iota.
  match goal with |- context [if ?c then bind _ _ else _] => destruct c end;
    (erewrite bind_run; [| apply option_at_some]); cbv beta iota;
    eexists; reflexivity.
Qed.

Lemma next_key_successor w setting def current :
  JS.own_get (settings w) setting = Some def ->
  current <> JS.Undefined ->
  current <> JS.Str EmptyString ->
  next_key w setting current = successor (JS.keys (s_o def)) current.
Proof.
  intros Hs Hu He. unfold next_key, result.
  destruct (next_run w setting def current Hs Hu He) as [d ->]. reflexivity.
Qed.

Lemma next_key_at w setting def (i : nat) :
  JS.own_get (settings w) setting = Some def ->
  NoDup (JS.keys (s_o def)) ->
  EmptyString ∉ JS.keys (s_o def) ->
  (i < length (JS.keys (s_o def)))%nat ->
  next_key w setting (JS.at_index (JS.keys (s_o def)) (Z.of_nat i))
  = JS.at_index (JS.keys (s_o def)) (Z.of_nat (S i mod length (JS.keys (s_o def)))).
Proof.
  intros Hs Hn He Hi.
  rewrite <- (successor_at _ i Hn Hi).
  apply (next_key_successor w setting def); [exact Hs | |];
    rewrite at_index_nat;
    destruct (lookup_lt_is_Some_2 _ i Hi) as [k Hk]; rewrite Hk; [discriminate|].
  intros [= ->]. apply He. eapply list_elem_of_lookup_2. exact Hk.
Qed.

Lemma next_key_iter w setting def (i j : nat) :
  JS.own_get (settings w) setting = Some def ->
  NoDup (JS.keys (s_o def)) ->
  EmptyString ∉ JS.keys (s_o def) ->
  (i < length (JS.keys (s_o def)))%nat ->
  Nat.iter j (next_key w setting) (JS.at_index (JS.keys (s_o def)) (Z.of_nat i))
  = JS.at_index (JS.keys (s_o def)) (Z.of_nat ((i + j) mod length (JS.keys (s_o def)))).
Proof.
  intros Hs Hn He Hi. induction j as [|j IH].
  - simpl. rewrite Nat.add_0_r, Nat.mod_small by exact Hi. reflexivity.
  - simpl. rewrite IH.
    rewrite (next_key_at w setting def _ Hs Hn He)
      by (apply Nat.mod_upper_bound; lia).
    f_equal. f_equal.
    replace (S ((i + j) mod length (JS.keys (s_o def))))
      with ((i + j) mod length (JS.keys (s_o def)) + 1)%nat by lia.
    rewrite Nat.Div0.add_mod_idemp_l. f_equal. lia.
Qed.

(** C7, amended: for a registered setting whose option keys are distinct
    and none of them the empty string, [next] returns for every current
    option; from any option key, as many steps as there are options
    lead back to that key; and the key after the last one enumerated is
    the first one enumerated.  Enumeration order is insertion order when
    no key is integer-like. *)
Theorem next_cycles (w : World) (setting : string) (def : SettingDefinition) (k : string) :
  JS.own_get (settings w) setting = Some def ->
  NoDup (JS.own_keys (s_o def)) ->
  EmptyString ∉ JS.own_keys (s_o def) ->
  k ∈ JS.own_keys (s_o def) ->
  let keys := JS.keys (s_o def) in
  (forall current, exists r, result (next setting current) w = Normal r)
  /\ Nat.iter (length (s_o def)) (next_key w setting) (JS.Str k) = JS.Str k
  /\ (forall first final, head keys = Some first -> last keys = Some final ->
        next_key w setting (JS.Str final) = JS.Str first)
  /\ ((forall key, key ∈ JS.own_keys (s_o def) -> JS.array_index key = None) ->
        keys = JS.own_keys (s_o def)).
Proof.
  intros Hs Hn He Hk keys. subst keys.
  assert (Hp : (JS.keys (s_o def)) ≡ₚ JS.own_keys (s_o def)) by apply keys_perm.
  assert (Hn' : NoDup (JS.keys (s_o def))) by (rewrite Hp; exact Hn).
  assert (He' : EmptyString ∉ (JS.keys (s_o def))) by (rewrite Hp; exact He).
  assert (Hlen : length (JS.keys (s_o def)) = length (s_o def)).
  { rewrite Hp. unfold JS.own_keys. apply length_fmap. }
  split; [intros current; eapply next_total; exact Hs |].
  split; [| split].
  - assert (Hk' : k ∈ (JS.keys (s_o def))) by (rewrite Hp; exact Hk).
    apply list_elem_of_lookup in Hk' as [i Hi].
    pose proof (lookup_lt_Some _ _ _ Hi) as Hlt.
    assert (Hat : JS.at_index (JS.keys (s_o def)) (Z.of_nat i) = JS.Str k)
      by (rewrite at_index_nat, Hi; reflexivity).
    rewrite <- Hat, <- Hlen.
    rewrite (next_key_iter w setting def i (length (JS.keys (s_o def))) Hs Hn' He' Hlt).
    f_equal. f_equal.
    rewrite <- Nat.Div0.add_mod_idemp_r, Nat.Div0.mod_same, Nat.add_0_r.
    apply Nat.mod_small. exact Hlt.
  - intros first final Hfirst Hfinal.
    rewrite last_lookup in Hfinal.
    assert (Hlt : (pred (length (JS.keys (s_o def))) < length (JS.keys (s_o def)))%nat)
      by (apply lookup_lt_Some in Hfinal; exact Hfinal).
    assert (Hat : JS.at_index (JS.keys (s_o def)) (Z.of_nat (pred (length (JS.keys (s_o def))))) = JS.Str final)
      by (rewrite at_index_nat, Hfinal; reflexivity).
    rewrite <- Hat.
    rewrite (next_key_at w setting def _ Hs Hn' He' Hlt).
    replace (S (pred (length (JS.keys (s_o def))))) with (length (JS.keys (s_o def))) by lia.
    rewrite Nat.Div0.mod_same. rewrite at_index_nat.
    rewrite <- head_lookup, Hfirst. reflexivity.
  - apply keys_insertion_order.
Qed.

(** ** The two private fields *)

Lemma keeps_refs {A} (c : M A) : keeps registry_part c -> keeps refs c.
Proof.
  intros H w. specialize (H w). unfold registry_part in H. unfold refs.
  congruence.
Qed.

Lemma generateDOM_keeps_refs : keeps refs generateDOM.
Proof.
  unfold generateDOM, generate_setting, sub_button. unfold_reads. cbv zeta. frame.
Qed.

Lemma insertDOM_keeps_refs : keeps refs insertDOM.
Proof.
  unfold insertDOM, watchForContainer, console_error, log.
  pose proof generateDOM_keeps_refs. frame.
Qed.

(** Whatever the parameters, the constructor leaves both private fields
    holding the object it was given. *)
Lemma constructor_aliases parameters w :
  refs (after (constructor parameters) w)
  = (p_settings parameters, p_settings parameters).
Proof.
  unfold after, constructor.
  erewrite bind_run; [| reflexivity]; cbv beta iota.
  erewrite bind_run; [| reflexivity]; cbv beta iota.
  erewrite bind_run; [| reflexivity]; cbv beta iota.
  erewrite bind_run; [| reflexivity]; cbv beta iota.
  erewrite bind_run; [| reflexivity]; cbv beta iota.
  match goal with
  | |- refs (?c ?w0).2 = _ =>
      assert (Hk : keeps refs c); [| rewrite Hk; reflexivity]
  end.
  pose proof insertDOM_keeps_refs. pose proof (keeps_refs _ init_keeps_registry).
  unfold watchForContainer, console_error, log. frame.
Qed.

(** ** Refusing a value *)




(** ** More of the engine at work *)

(** A function that returns [false], rejects or throws does not keep the
    value from being stored, and the control shows the error. *)
Example failing_callback_persists_and_flags :
  let m := new_SettingsManager modeList in
  Forall (fun k =>
            let w := after (task (set "mode" (plain_args (JS.Str k)))) m in
            items (storage w) !! "mode" = Some k
            /\ CallUpdateDOM "mode" (JS.Str k) true ∈ trace w
            /\ tb_error <$> control "mode" w = Some true)
         ["soft"; "hard"; "raw"].
Proof.
  repeat constructor; try (apply (bool_decide_unpack _)); vm_compute; reflexivity.
Qed.

(** For a value that is no property of the options, [updateDOM] is
    called with the error flag, throws on [o[value].s] and catches it:
    the control is left as it was. *)
Example refused_value_leaves_the_control :
  let m := new_SettingsManager modeList in
  let w := after (task (set "mode" (plain_args (JS.Str "nope")))) m in
  trace w = [ CallSet "mode" (JS.Str "nope"); ConsoleError;
              CallUpdateDOM "mode" (JS.Str "nope") true; ConsoleError ]
  /\ control "mode" w = control "mode" m
  /\ items (storage w) !! "mode" = None.
Proof. vm_compute. repeat split. Qed.

(** With display names that [parseFloat] accepts, the keys are sorted in
    descending order. *)
Example numeric_names_render_descending :
  rendered_options "volume" (generated (new_SettingsManager volumeList)) = ["3"; "2"; "1"].
Proof. vm_compute. reflexivity. Qed.

(** A number is found through its serialized form; a value that is not
    found at all leads to the first key. *)
Example next_of_a_number :
  let w := new_SettingsManager volumeList in
  JS.indexOf (JS.keys (s_o volume)) (JS.Num 1) = (-1)%Z
  /\ next_key w "volume" (JS.Num 1) = JS.Str "2"
  /\ next_key w "volume" (JS.Str "loud") = JS.Str "1".
Proof. vm_compute. repeat split. Qed.

(** The empty string stands for an omitted current option, also when it
    is an option key: the stored or in-memory value is used instead, and
    three steps from "a" do not lead back to "a". *)
Example empty_key_is_the_omitted_option :
  let w := new_SettingsManager filterList in
  next_key w "filter" (JS.Str EmptyString) = JS.Str "b"
  /\ Nat.iter 3 (next_key w "filter") (JS.Str "a") = JS.Str "b".
Proof. vm_compute. repeat split. Qed.

(** What freezing protects: a whole setting cannot be replaced, from
    either reference, but its value can be written. *)
Example freeze_is_shallow :
  let w := new_SettingsManager themeList in
  let replaced := after (external_assign (settings_ref w) "theme" mode) w in
  let written := after (external_write_v (settings_ref w) "theme" (JS.Str "light")) w in
  settings replaced = settings w
  /\ s_v <$> JS.own_get (settings written) "theme" = Some (JS.Str "light")
  /\ s_v <$> JS.own_get (defaults written) "theme" = Some (JS.Str "light").
Proof. vm_compute. repeat split. Qed.

(** With a store that throws, [get] answers [null] and [set] flags the
    error without an exception. *)
Example store_that_throws :
  let w := with_storage broken_storage (new_SettingsManager themeList) in
  let w' := after (set "theme" (plain_args (JS.Str "light"))) w in
  result (get "theme") w = Normal JS.Null
  /\ result (set "theme" (plain_args (JS.Str "light"))) w = Normal tt
  /\ trace w' = [ CallSet "theme" (JS.Str "light"); ConsoleError; ConsoleError;
                  ConsoleError; CallUpdateDOM "theme" (JS.Str "light") true ]
  /\ tb_error <$> control "theme" w' = Some true.
Proof. vm_compute. repeat split. Qed.

(** * Further properties of the engine *)

(** ** What [set] lets escape *)

Lemma setting_object_run w setting :
  setting_object setting w = (Normal (JS.get (settings w) setting), w).
Proof. reflexivity. Qed.

Lemma setSetting_total_some w setting args options :
  exists w',
    try_catch
      (opt <- option_at options (a_v args) ;;
       match opt with
       | JS.Absent => throw NotAnOption
       | _ =>
           try_catch
             (f <- dot_f opt ;;
              match f with
              | Some _ =>
                  try_catch
                    (executeSetting setting {| x_value := a_v args; x_args := Some args |} ;;;
                     enqueue (PersistJob setting (a_v args)))
                    (fun _ => log UnhandledRejection)
              | None =>
                  try_catch
                    (localStorage_setItem setting (a_v args) ;;;
                     updateDOM setting (a_v args) false ;;;
                     ret tt)
                    (fun _ => console_error ;;; throw CouldNotSet)
              end)
             (fun _ => console_error ;;; throw CouldNotSet)
       end)%js
      (fun _ => console_error ;;; updateDOM setting (a_v args) true ;;; ret tt)%js w
    = (Normal tt, w').
Proof.
  match goal with
  | |- exists w', try_catch ?c ?h w = _ =>
      assert (Ht : total (try_catch c h))
  end.
  { apply total_try_catch. intros e. unfold console_error. frame. }
  destruct (Ht w) as [[] H].
  match goal with
  | |- exists w', ?t = _ => destruct t as [r w'] eqn:E
  end.
  simpl in H. subst r. exists w'. reflexivity.
Qed.

(** X3: [set] throws, a TypeError, for a name found nowhere in the list,
    having only logged the call: the store, the container and the job
    queue are as before.  For every other name, whatever the value and
    whatever the store does, it returns normally. *)
Theorem set_throws_only_on_an_unknown_setting (w : World) (setting : string) (args : Args) :
  match JS.get (settings w) setting with
  | JS.Absent =>
      result (set setting args) w = Throw TypeError
      /\ storage (after (set setting args) w) = storage w
      /\ container (after (set setting args) w) = container w
      /\ jobs (after (set setting args) w) = jobs w
      /\ trace (after (set setting args) w) = (trace w ++ [CallSet setting (a_v args)])%list
  | _ => result (set setting args) w = Normal tt
  end.
Proof.
  unfold result, after, set, setSetting.
  erewrite bind_run; [| reflexivity]; cbv beta iota.
  set (wa := with_trace _ w).
  erewrite bind_run; [| apply setting_object_run]; cbv beta iota.
  change (settings wa) with (settings w).
  destruct (JS.get (settings w) setting) as [def| |].
  - erewrite bind_run; [| reflexivity]; cbv beta iota.
    destruct (setSetting_total_some wa setting args (Some (s_o def))) as [w' ->].
    reflexivity.
  - erewrite bind_run; [| reflexivity]; cbv beta iota.
    destruct (setSetting_total_some wa setting args None) as [w' ->].
    reflexivity.
  - repeat split.
Qed.

(** ** A store that throws *)

Lemma own_option_at w def k od :
  JS.own_get (s_o def) k = Some od ->
  option_at (Some (s_o def)) (JS.Str k) w = (Normal (JS.Own od), w).
Proof. intros H. unfold option_at, ret. simpl. rewrite (get_own _ _ _ H). reflexivity. Qed.

Lemma setItem_throws_run w key v :
  setItem_throws (storage w) = true ->
  localStorage_setItem key v w = (Throw StorageError, w).
Proof.
  intros H. unfold localStorage_setItem, bind, get_world. rewrite H. reflexivity.
Qed.

Lemma bind_throw {A B} (c : M A) (k : A -> M B) w e w' :
  c w = (Throw e, w') -> bind c k w = (Throw e, w').
Proof. unfold bind. intros ->. reflexivity. Qed.

Lemma updateDOM_run_full w setting value error :
  exists b w', updateDOM setting value error w = (Normal b, w')
               /\ storage w' = storage w /\ jobs w' = jobs w
               /\ CallUpdateDOM setting value error ∈ trace w'.
Proof.
  destruct (updateDOM_run w setting value error) as (b & w' & Hu & Hs & Hj).
  exists b, w'. repeat split; try assumption.
  pose proof (updateDOM_logged setting value error w) as H. rewrite Hu in H. exact H.
Qed.

(** X4: for an option without function, a store that throws on writing
    is reported: [set] returns normally, nothing is stored or queued,
    and the control is updated with the error flag. *)
Theorem set_reports_a_store_that_throws (w : World) (setting k : string)
    (def : SettingDefinition) (od : OptionDefinition) (args : Args) :
  JS.own_get (settings w) setting = Some def ->
  JS.own_get (s_o def) k = Some od ->
  o_f od = None ->
  a_v args = JS.Str k ->
  setItem_throws (storage w) = true ->
  let w' := after (set setting args) w in
  result (set setting args) w = Normal tt
  /\ storage w' = storage w
  /\ jobs w' = jobs w
  /\ CallUpdateDOM setting (JS.Str k) true ∈ trace w'.
Proof.
  intros Hs Hk Hf Hv Hp w'. subst w'. unfold result, after, set, setSetting.
  rewrite Hv.
  erewrite bind_run; [| reflexivity]; cbv beta iota.
  set (wa := with_trace _ w).
  erewrite bind_run; [| apply setting_object_own; exact Hs]; cbv beta iota.
  erewrite bind_run; [| reflexivity]; cbv beta iota.
  erewrite catch_run.
  2:{ erewrite bind_run; [| apply own_option_at; exact Hk]; cbv beta iota.
      erewrite catch_run.
      - erewrite bind_run; [| reflexivity]. reflexivity.
      - erewrite bind_run; [| unfold dot_f, field; rewrite Hf; reflexivity]; cbv beta iota.
        erewrite catch_run.
        + erewrite bind_run; [| reflexivity]. reflexivity.
        + erewrite (bind_throw _ _ _ _ _ (setItem_throws_run wa setting (JS.Str k) Hp)).
          reflexivity. }
  erewrite bind_run; [| reflexivity]; cbv beta iota.
  match goal with |- context [bind (updateDOM _ _ _) _ ?wb] =>
    destruct (updateDOM_run_full wb setting (JS.Str k) true)
      as (b & wc & Hu & Hus & Huj & Hlog)
  end.
  erewrite bind_run; [| exact Hu]; cbv beta iota.
  repeat split; assumption.
Qed.

Lemma try_total {A} (c : M A) (h : Exn -> M A) w :
  total c -> try_catch c h w = c w.
Proof.
  intros H. unfold try_catch. destruct (H w) as [a Ha].
  destruct (c w) as [r w']. simpl in Ha. subst r. reflexivity.
Qed.

Lemma for_each_app {A} (xs ys : list A) (body : A -> M unit) w :
  for_each (xs ++ ys) body w = (for_each xs body ;;; for_each ys body)%js w.
Proof.
  revert w. induction xs as [|x xs IH]; intros w; simpl.
  - reflexivity.
  - unfold bind in *. destruct (body x w) as [[[]|e] w1]; [apply IH | reflexivity].
Qed.

Lemma call_option_total setting value args f : total (call_option setting value args f).
Proof. unfold call_option, enqueue, await_later, console_error. frame. Qed.

(** With a registered setting and an option that declares a function,
    [set] runs [executeSetting] and queues the write. *)
Lemma setSetting_callback_run w setting k def od cb args :
  JS.own_get (settings w) setting = Some def ->
  defaults w = settings w ->
  JS.own_get (s_o def) k = Some od ->
  o_f od = Some cb ->
  a_v args = JS.Str k ->
  exists wb,
    executeSetting setting {| x_value := JS.Str k; x_args := Some args |}
      (with_trace (trace w ++ [CallSet setting (JS.Str k)]) w) = (Normal tt, wb)
    /\ setSetting setting args w
       = (Normal tt, with_jobs (jobs wb ++ [PersistJob setting (JS.Str k)]) wb).
Proof.
  intros Hs Hd Hk Hf Hv. unfold setSetting. rewrite Hv.
  erewrite bind_run; [| reflexivity]; cbv beta iota.
  set (wa := with_trace _ w).
  destruct (executeSetting_spec wa setting def
              {| x_value := JS.Str k; x_args := Some args |} Hs Hd)
    as (wb & Hx & _ & _).
  exists wb. split; [exact Hx|].
  erewrite bind_run; [| apply setting_object_own; exact Hs]; cbv beta iota.
  erewrite bind_run; [| reflexivity]; cbv beta iota.
  erewrite try_run; [reflexivity|].
  erewrite bind_run; [| apply own_option_at; exact Hk]; cbv beta iota.
  erewrite try_run; [reflexivity|].
  erewrite bind_run; [| unfold dot_f, field; rewrite Hf; reflexivity]; cbv beta iota.
  erewrite try_run; [reflexivity|].
  erewrite bind_run; [| exact Hx]. reflexivity.
Qed.

Lemma broken_store_keeps (st : Storage) (js : list Job) :
  setItem_throws st = true -> foldl job_storage st js = st.
Proof.
  intros H. induction js as [|j js IH]; [reflexivity|].
  simpl. destruct j; simpl; [rewrite H|]; exact IH.
Qed.

Lemma for_each_run_job_total js : total (for_each js run_job).
Proof. apply total_for_each. intros j. apply run_job_total. Qed.

Lemma run_job_preserves_event e j : preserves (fun w => e ∈ trace w) (run_job j).
Proof.
  unfold run_job, console_error, localStorage_setItem. preserve same_trace.
Qed.

Lemma log_keeps_error_updates e :
  is_error_update e = false -> keeps error_updates (log e).
Proof.
  intros H w. unfold log, error_updates. simpl.
  rewrite filter_app, filter_cons_False, filter_nil by congruence.
  apply app_nil_r.
Qed.
#[global] Hint Resolve log_keeps_error_updates : frames.
#[global] Hint Extern 1 (is_error_update _ = false) => reflexivity : frames.

Lemma quiet_update_keeps_error_updates setting value :
  keeps error_updates (updateDOM setting value false).
Proof. unfold updateDOM, console_error. unfold_quiet_reads. frame. Qed.
#[global] Hint Resolve quiet_update_keeps_error_updates : frames.

Lemma setItem_keeps_error_updates key v :
  keeps error_updates (localStorage_setItem key v).
Proof. unfold localStorage_setItem. frame. Qed.
#[global] Hint Resolve setItem_keeps_error_updates : frames.

Lemma truthy_key k : k <> EmptyString -> JS.truthy (JS.Str k) = true.
Proof.
  intros H. simpl. destruct (String.eqb_spec k EmptyString); [contradiction | reflexivity].
Qed.

(** With an explicit value that is a non-empty key whose option declares
    a function, [executeSetting] comes down to the call of it. *)
Lemma executeSetting_calls w setting k def od cb args :
  JS.own_get (settings w) setting = Some def ->
  JS.own_get (s_o def) k = Some od ->
  o_f od = Some cb ->
  k <> EmptyString ->
  executeSetting setting {| x_value := JS.Str k; x_args := Some args |} w
  = call_option setting (JS.Str k)
      {| a_v := a_v args; a_s := true; a_this := Some setting |} cb w.
Proof.
  intros Hs Hk Hf Hne. unfold executeSetting, value_or_current. cbn [x_value x_args].
  rewrite (truthy_key k Hne).
  erewrite bind_run; [| reflexivity]; cbv beta iota.
  erewrite bind_run; [| apply setting_object_own; exact Hs]; cbv beta iota.
  erewrite bind_run; [| reflexivity]; cbv beta iota.
  rewrite try_total.
  - erewrite bind_run; [| apply own_option_at; exact Hk]; cbv beta iota.
    erewrite bind_run; [| unfold dot_f, field; rewrite Hf; reflexivity]; cbv beta iota.
    reflexivity.
  - intros w0.
    erewrite bind_run; [| apply own_option_at; exact Hk]; cbv beta iota.
    erewrite bind_run; [| unfold dot_f, field; rewrite Hf; reflexivity]; cbv beta iota.
    apply call_option_total.
Qed.

(** X5: for an option with a function, the write is left to a job, and
    a store that throws there goes unreported: the task ends normally,
    nothing is stored, the rejection is handled by nobody, and when the
    function returns [true] no update carries the error flag. *)
Theorem set_with_callback_hides_a_store_that_throws (w : World) (setting k : string)
    (def : SettingDefinition) (od : OptionDefinition) (cb : Callback) (args : Args) :
  JS.own_get (settings w) setting = Some def ->
  defaults_ref w = settings_ref w ->
  JS.own_get (s_o def) k = Some od ->
  o_f od = Some cb ->
  a_v args = JS.Str k ->
  setItem_throws (storage w) = true ->
  let w2 := after (task (set setting args)) w in
  result (task (set setting args)) w = Normal tt
  /\ storage w2 = storage w
  /\ UnhandledRejection ∈ trace w2
  /\ (cb = Returns (JS.Bool true) -> k <> EmptyString -> jobs w = [] ->
      error_updates w2 = error_updates w).
Proof.
  intros Hs Hr Hk Hf Hv Hp w2. subst w2.
  pose proof (defaults_are_settings w Hr) as Hd.
  destruct (setSetting_callback_run w setting k def od cb args Hs Hd Hk Hf Hv)
    as (wb & Hx & Hset).
  set (wa := with_trace (trace w ++ [CallSet setting (JS.Str k)]) w) in *.
  pose proof (executeSetting_keeps_storage setting
                {| x_value := JS.Str k; x_args := Some args |} wa) as Hxs.
  rewrite Hx in Hxs. simpl in Hxs.
  unfold result, after, task, set. rewrite Hset. cbn [fst snd].
  set (w1 := with_jobs _ wb).
  assert (Hst1 : storage w1 = storage w) by exact Hxs.
  destruct (run_jobs_spec w1) as [_ Hst]. unfold after in Hst.
  split; [reflexivity|]. split; [| split].
  - rewrite Hst, broken_store_keeps; rewrite Hst1; [reflexivity | exact Hp].
  - unfold run_jobs.
    erewrite bind_run; [| reflexivity]; cbv beta iota.
    erewrite bind_run; [| reflexivity]; cbv beta iota.
    change (jobs w1) with (jobs wb ++ [PersistJob setting (JS.Str k)])%list.
    rewrite for_each_app.
    destruct (for_each_run_job_total (jobs wb) (with_jobs [] w1)) as [[] Ht].
    destruct (run_all_spec (jobs wb) (with_jobs [] w1)) as [_ Hmid].
    unfold after in Hmid.
    destruct (for_each (jobs wb) run_job (with_jobs [] w1)) as [r wm] eqn:E.
    simpl in Ht, Hmid. subst r.
    erewrite bind_run; [| exact E]; cbv beta iota.
    assert (Hbroken : setItem_throws (storage wm) = true).
    { rewrite Hmid, broken_store_keeps; simpl; rewrite Hxs; exact Hp. }
    simpl for_each.
    erewrite bind_run;
      [| unfold run_job; erewrite catch_run;
         [reflexivity | apply setItem_throws_run; exact Hbroken] ].
    simpl. apply elem_of_app. right. apply list_elem_of_singleton. reflexivity.
  - intros -> Hne Hj.
    rewrite (executeSetting_calls wa setting k def od _ args Hs Hk Hf Hne) in Hx.
    injection Hx as Hwb.
    unfold run_jobs.
    erewrite bind_run; [| reflexivity]; cbv beta iota.
    erewrite bind_run; [| reflexivity]; cbv beta iota.
    subst w1 wb. simpl jobs. rewrite Hj. simpl app.
    match goal with
    | |- error_updates (for_each ?js run_job ?w0).2 = _ =>
        assert (Hk0 : keeps error_updates (for_each js run_job));
        [| rewrite Hk0 ]
    end.
    + simpl for_each. unfold run_job. simpl JS.strict_eq. cbv iota.
      unfold console_error. frame.
    + unfold error_updates. simpl trace.
      rewrite !filter_app, !filter_cons_False, !filter_nil by (simpl; congruence).
      rewrite !app_nil_r. reflexivity.
Qed.

(** ** Two calls in one task *)

(** X6: a [set] on an option with a function, followed in the same task
    by a [set] on an option without one: the second value is stored at
    once, and the first overwrites it when the jobs run, so the earlier
    call is the one left in the store. *)
Theorem earlier_set_with_callback_wins (w : World) (setting a b : string)
    (def : SettingDefinition) (oda odb : OptionDefinition) :
  JS.own_get (settings w) setting = Some def ->
  defaults_ref w = settings_ref w ->
  JS.own_get (s_o def) a = Some oda ->
  JS.own_get (s_o def) b = Some odb ->
  o_f oda <> None ->
  o_f odb = None ->
  getItem_throws (storage w) = false ->
  setItem_throws (storage w) = false ->
  jobs w = [] ->
  let both := (set setting (plain_args (JS.Str a)) ;;;
               set setting (plain_args (JS.Str b)))%js in
  result (get setting) (after both w) = Normal (JS.Str b)
  /\ result (get setting) (after (task both) w) = Normal (JS.Str a).
Proof.
  intros Hs Hr Ha Hb Hfa Hfb Hg Hp Hj both. subst both.
  pose proof (defaults_are_settings w Hr) as Hd.
  destruct (setSetting_valid w setting a def oda (plain_args (JS.Str a))
              Hs Hd Ha eq_refl Hp) as (w1 & Hrun1 & Hc1).
  destruct Hc1 as [(Hfa' & _) | (_ & Hst1 & l & Hj1 & Hl)]; [contradiction|].
  assert (Hreg : registry_part w1 = registry_part w).
  { pose proof (setSetting_keeps_registry setting (plain_args (JS.Str a)) w) as H.
    rewrite Hrun1 in H. exact H. }
  destruct (settings_of_registry_part _ _ Hreg) as [Hs1 Hd1].
  assert (Hs' : JS.own_get (settings w1) setting = Some def) by (rewrite Hs1; exact Hs).
  assert (Hd' : defaults w1 = settings w1) by (rewrite Hs1, Hd1; exact Hd).
  assert (Hp' : setItem_throws (storage w1) = false) by (rewrite Hst1; exact Hp).
  destruct (setSetting_valid w1 setting b def odb (plain_args (JS.Str b))
              Hs' Hd' Hb eq_refl Hp') as (w2 & Hrun2 & Hc2).
  destruct Hc2 as [(_ & Hst2 & Hj2) | (Hfb' & _)]; [| congruence].
  assert (Hboth : (set setting (plain_args (JS.Str a)) ;;;
                   set setting (plain_args (JS.Str b)))%js w = (Normal tt, w2)).
  { unfold set. erewrite bind_run; [| exact Hrun1]. exact Hrun2. }
  unfold after, task, result, get. rewrite Hboth. cbn [fst snd]. split.
  - apply getSetting_stored; rewrite Hst2, Hst1; simpl;
      [exact Hg | apply lookup_insert_eq].
  - destruct (run_jobs_spec w2) as [_ Hst]. unfold after in Hst.
    apply getSetting_stored; rewrite Hst, Hj2, Hj1, foldl_app; simpl;
      rewrite callbacks_store_nothing, Hl; unfold persist_jobs; rewrite Hj; simpl;
      rewrite Hst2, Hst1; simpl; rewrite Hp; simpl;
      [exact Hg | apply lookup_insert_eq].
Qed.

(** ** What [updateDOM] does to the controls *)

(** Computations that only look at the world. *)
Lemma value_or_current_pure setting value :
  keeps (fun w => w) (value_or_current setting value).
Proof. unfold value_or_current. unfold_reads. frame. Qed.

Lemma setting_object_pure setting : keeps (fun w => w) (setting_object setting).
Proof. unfold setting_object. frame. Qed.

Lemma dot_o_pure x : keeps (fun w => w) (dot_o x).
Proof. unfold dot_o, field. frame. Qed.

Lemma dot_s_pure x : keeps (fun w => w) (dot_s x).
Proof. unfold dot_s, field. frame. Qed.

Lemma dot_v_pure x : keeps (fun w => w) (dot_v x).
Proof. unfold dot_v, field. frame. Qed.

Lemma dot_f_pure x : keeps (fun w => w) (dot_f x).
Proof. unfold dot_f, field. frame. Qed.

Lemma option_at_pure options key : keeps (fun w => w) (option_at options key).
Proof. unfold option_at. frame. Qed.

Create HintDb pure.
#[global] Hint Resolve value_or_current_pure setting_object_pure dot_o_pure dot_s_pure
  dot_v_pure dot_f_pure option_at_pure : pure.

(** Inside a [try], a step that only looks at the world either hands
    its value on or hands its exception to the handler, in the same
    world. *)
Lemma try_bind_pure {A B} (c : M A) (k : A -> M B) (h : Exn -> M B) w :
  keeps (fun w => w) c ->
  try_catch (bind c k) h w
  = match (c w).1 with
    | Normal a => try_catch (k a) h w
    | Throw e => h e w
    end.
Proof.
  intros H. specialize (H w). unfold try_catch, bind.
  destruct (c w) as [[a|e] w']; simpl in *; subst w'; reflexivity.
Qed.

Lemma bind_pure {A B} (c : M A) (k : A -> M B) w :
  keeps (fun w => w) c ->
  bind c k w
  = match (c w).1 with
    | Normal a => k a w
    | Throw e => (Throw e, w)
    end.
Proof.
  intros H. specialize (H w). unfold bind.
  destruct (c w) as [[a|e] w']; simpl in *; subst w'; reflexivity.
Qed.

(** Either [updateDOM] returns [false] and the container is as before, or
    it returns [true] and the container shows some value and name. *)
Lemma updateDOM_cases w setting value error :
  let w' := after (updateDOM setting value error) w in
  (result (updateDOM setting value error) w = Normal false
   /\ container w' = container w)
  \/ (exists doc b0 settingValue name,
        result (updateDOM setting value error) w = Normal true
        /\ container w = Some doc
        /\ find_top setting doc = Some b0
        /\ (JS.truthy value = true -> settingValue = value)
        /\ container w' = Some (shown_document setting settingValue name error doc)).
Proof.
  unfold result, after, updateDOM.
  erewrite bind_run; [| reflexivity]; cbv beta iota.
  set (wa := with_trace _ w).
  erewrite bind_run; [| reflexivity]; cbv beta iota.
  change (container wa) with (container w).
  destruct (container w) as [[|e doc]|] eqn:Hc.
  - left. split; [reflexivity | simpl; exact Hc].
  - cbv zeta.
    rewrite try_bind_pure by auto with pure.
    destruct (value_or_current setting value wa).1 as [settingValue|] eqn:Hv;
      [| left; split; [reflexivity | simpl; exact Hc] ].
    rewrite try_bind_pure by auto with pure.
    destruct (setting_object setting wa).1 as [s|];
      [| left; split; [reflexivity | simpl; exact Hc] ].
    rewrite try_bind_pure by auto with pure.
    destruct (dot_o s wa).1 as [options|];
      [| left; split; [reflexivity | simpl; exact Hc] ].
    rewrite try_bind_pure by auto with pure.
    destruct (option_at options settingValue wa).1 as [opt|];
      [| left; split; [reflexivity | simpl; exact Hc] ].
    rewrite try_bind_pure by auto with pure.
    destruct (dot_s opt wa).1 as [name|];
      [| left; split; [reflexivity | simpl; exact Hc] ].
    destruct (find_top setting (e :: doc)) as [b0|] eqn:Hb.
    + right. exists (e :: doc), b0, settingValue, name.
      split; [reflexivity|]. split; [reflexivity|]. split; [exact Hb|].
      split; [| reflexivity].
      intros Ht. unfold value_or_current in Hv. rewrite Ht in Hv.
      injection Hv as <-. reflexivity.
    + left. split; [reflexivity | simpl; exact Hc].
  - left. split; [reflexivity | simpl; exact Hc].
Qed.





(** X7: [updateDOM] never throws and touches nothing but the container
    and the console; when it answers [false] the container is as before;
    and it answers [false] when the setting has no control. *)
Theorem updateDOM_fails_without_effect (w : World) (setting : string)
    (value : JS.value) (error : bool) :
  let w' := after (updateDOM setting value error) w in
  (result (updateDOM setting value error) w = Normal true
   \/ result (updateDOM setting value error) w = Normal false)
  /\ storage w' = storage w
  /\ jobs w' = jobs w
  /\ registry_part w' = registry_part w
  /\ (result (updateDOM setting value error) w = Normal false ->
      container w' = container w)
  /\ (control setting w = None ->
      result (updateDOM setting value error) w = Normal false).
Proof.
  intros w'.
  pose proof (updateDOM_cases w setting value error) as Hc. cbv zeta in Hc.
  fold w' in Hc.
  split; [| split; [| split; [| split; [| split]]]].
  - destruct Hc as [[H _] | (doc & b0 & sv & name & H & _)]; auto.
  - apply updateDOM_keeps_storage.
  - apply updateDOM_keeps_jobs.
  - apply updateDOM_keeps_registry.
  - intros Hf. destruct Hc as [[_ H] | (doc & b0 & sv & name & H & _)];
      [exact H | congruence].
  - intros Hn. destruct Hc as [[H _] | (doc & b0 & sv & name & _ & Hd & Hb & _)];
      [exact H |].
    unfold control in Hn. rewrite Hd, Hb in Hn. discriminate.
Qed.


(** ** Rendering *)

Lemma constant_ret {A} (a : A) : constant (ret a).
Proof. exists (Normal a). reflexivity. Qed.

Lemma constant_throw {A} (e : Exn) : constant (@throw A e).
Proof. exists (Throw e). reflexivity. Qed.

Lemma constant_bind {A B} (c : M A) (k : A -> M B) :
  constant c -> (forall a, constant (k a)) -> constant (bind c k).
Proof.
  intros [[a|e] Hc] Hk.
  - destruct (Hk a) as [r Hr]. exists r. intros w. unfold bind. rewrite Hc. apply Hr.
  - exists (Throw e). intros w. unfold bind. rewrite Hc. reflexivity.
Qed.

Lemma constant_map_m {A B} (f : A -> M B) (xs : list A) :
  (forall x, constant (f x)) -> constant (map_m f xs).
Proof.
  intros H. induction xs as [|x xs IH]; simpl.
  - apply constant_ret.
  - apply constant_bind; [apply H | intros y].
    apply constant_bind; [exact IH | intros ys; apply constant_ret].
Qed.

Ltac constant_step :=
  lazymatch goal with
  | |- constant (bind _ _) => apply constant_bind; [| intros ?]
  | |- constant (ret _) => apply constant_ret
  | |- constant (throw _) => apply constant_throw
  | |- constant (map_m _ _) => apply constant_map_m; intros ?
  | |- constant (match ?x with _ => _ end) => destruct x
  end.

Ltac constants := repeat constant_step.

Lemma generate_setting_depends setting w w' :
  settings w = settings w' ->
  (generate_setting setting w).1 = (generate_setting setting w').1
  /\ (generate_setting setting w).2 = w.
Proof.
  intros H. unfold generate_setting.
  erewrite !bind_run; [| apply setting_object_run ..]. cbv beta.
  rewrite H.
  match goal with
  | |- (?c w).1 = (?c w').1 /\ _ => assert (Hc : constant c)
  end.
  { unfold sub_button, option_at, dot_s, field. cbv zeta. constants. }
  destruct Hc as [r Hr]. rewrite !Hr. split; reflexivity.
Qed.

Lemma map_m_depends {A B} (f : A -> M B) (xs : list A) w w' :
  (forall x, (f x w).1 = (f x w').1 /\ (f x w).2 = w /\ (f x w').2 = w') ->
  (map_m f xs w).1 = (map_m f xs w').1 /\ (map_m f xs w).2 = w.
Proof.
  intros H. induction xs as [|x xs IH]; simpl; [split; reflexivity|].
  destruct (H x) as (H1 & H2 & H3). destruct IH as [IH1 IH2].
  unfold bind.
  destruct (f x w) as [r1 w1]. destruct (f x w') as [r1' w1'].
  simpl in H1, H2, H3. subst. destruct r1' as [y|e]; [| split; reflexivity].
  destruct (map_m f xs w) as [r2 w2]. destruct (map_m f xs w') as [r2' w2'].
  simpl in IH1, IH2. subst. destruct r2' as [ys|e]; split; reflexivity.
Qed.

(** [generateDOM] reads the settings list and nothing else, and changes
    nothing. *)
Lemma generateDOM_depends w w' :
  settings w = settings w' ->
  (generateDOM w).1 = (generateDOM w').1 /\ (generateDOM w).2 = w.
Proof.
  intros H. unfold generateDOM.
  rewrite (bind_run get_world _ w w w eq_refl), (bind_run get_world _ w' w' w' eq_refl).
  rewrite H.
  destruct (map_m_depends generate_setting (JS.keys (settings w')) w w') as [H1 H2].
  { intros x. destruct (generate_setting_depends x w w' H) as [Ha Hb].
    destruct (generate_setting_depends x w' w' eq_refl) as [_ Hc]. auto. }
  unfold bind.
  destruct (map_m generate_setting (JS.keys (settings w')) w) as [r1 w1].
  destruct (map_m generate_setting (JS.keys (settings w')) w') as [r1' w1'].
  simpl in H1, H2. subst. destruct r1'; split; reflexivity.
Qed.

(** X9: [insertDOM] renders again whatever is already there: two calls
    leave every control twice. *)
Theorem insertDOM_twice_renders_twice (w : World) (children fragment : list Element) :
  container w = Some children ->
  result generateDOM w = Normal fragment ->
  result (insertDOM ;;; insertDOM)%js w = Normal tt
  /\ container (after (insertDOM ;;; insertDOM)%js w)
     = Some (children ++ fragment ++ fragment)%list.
Proof.
  intros Hc Hg. unfold result, after in *.
  assert (Hone : forall w0 c0,
            container w0 = Some c0 -> settings w0 = settings w ->
            insertDOM w0 = (Normal tt, with_container (Some (c0 ++ fragment)%list) w0)).
  { intros w0 c0 Hc0 Hs0. unfold insertDOM.
    erewrite bind_run; [| reflexivity]; cbv beta iota. rewrite Hc0.
    destruct (generateDOM_depends w0 w Hs0) as [H1 H2].
    assert (Hgen : generateDOM w0 = (Normal fragment, w0)).
    { destruct (generateDOM w0) as [r w1]. simpl in H1, H2. subst w1.
      rewrite Hg in H1. subst r. reflexivity. }
    erewrite bind_run; [| exact Hgen]. reflexivity. }
  erewrite bind_run; [| apply (Hone w children Hc eq_refl)].
  rewrite (Hone (with_container (Some (children ++ fragment)%list) w)
             (children ++ fragment)%list eq_refl eq_refl).
  simpl. rewrite <- app_assoc. split; reflexivity.
Qed.

(** ** When rendering throws *)








Lemma own_get_key {A} (obj : JS.props A) k a :
  JS.own_get obj k = Some a -> k ∈ JS.own_keys obj.
Proof.
  unfold JS.own_keys. induction obj as [|[k' a'] obj IH]; simpl; [discriminate|].
  destruct (String.eqb_spec k' k) as [->|_].
  - intros _. left.
  - intros H. right. apply IH, H.
Qed.



(** ** The constructor *)

Lemma object_at_frozen r r' w w' :
  heap w' = alter (fun obj => {| frozen := true; entries := entries obj |}) r' (heap w) ->
  object_at r w' = object_at r w.
Proof.
  intros H. unfold object_at. rewrite H, lookup_alter.
  destruct (decide (r' = r)) as [->|Hne]; [| reflexivity].
  destruct (heap w !! r); reflexivity.
Qed.

Lemma guarded_init_total (b : bool) :
  total (if b then try_catch init (fun _ => console_error) else ret tt).
Proof.
  destruct b; [| apply total_ret].
  apply total_try_catch. intros e. unfold console_error, log.
  apply total_modify.
Qed.

(** X11: the constructor throws exactly what [generateDOM] throws on the
    list it was given, and only when the container is present and the
    markup was asked for; nothing that [init] throws leaves it. *)
Theorem constructor_throws_what_rendering_throws (parameters : Parameters) (w : World) :
  result (constructor parameters) w
  = match p_container parameters with
    | Some _ =>
        if p_DOM parameters then
          match result generateDOM
                  (with_refs (p_settings parameters) (p_settings parameters) w) with
          | Normal _ => Normal tt
          | Throw e => Throw e
          end
        else Normal tt
    | None => Normal tt
    end.
Proof.
  unfold result, constructor.
  erewrite bind_run; [| reflexivity]; cbv beta iota.
  erewrite bind_run; [| reflexivity]; cbv beta iota.
  erewrite bind_run; [| reflexivity]; cbv beta iota.
  erewrite bind_run; [| reflexivity]; cbv beta iota.
  erewrite bind_run; [| reflexivity]; cbv beta iota.
  destruct (p_container parameters) as [children|].
  - match goal with |- (bind _ _ ?w0).1 = _ => set (wm := w0) end.
    assert (Hs : settings wm
                 = settings (with_refs (p_settings parameters) (p_settings parameters) w)).
    { subst wm. unfold settings. simpl. eapply eq_trans; [eapply object_at_frozen; reflexivity | reflexivity]. }
    destruct (p_DOM parameters).
    + destruct (generateDOM_depends wm _ Hs) as [Hr Hw]. rewrite <- Hr.
      destruct (generateDOM wm) as [[fragment|e] w1] eqn:E; simpl in Hw; subst w1.
      * assert (Hi : insertDOM wm
                     = (Normal tt, with_container (Some (children ++ fragment)%list) wm)).
        { unfold insertDOM.
          rewrite (bind_run get_world _ wm wm wm eq_refl).
          replace (container wm) with (Some children) by reflexivity.
          erewrite bind_run; [| exact E]. reflexivity. }
        erewrite bind_run; [| exact Hi]; cbv beta iota.
        destruct (guarded_init_total (p_init parameters)
                    (with_container (Some (children ++ fragment)%list) wm)) as [[] Ht].
        simpl. exact Ht.
      * assert (Hi : insertDOM wm = (Throw e, wm)).
        { unfold insertDOM.
          rewrite (bind_run get_world _ wm wm wm eq_refl).
          replace (container wm) with (Some children) by reflexivity.
          erewrite bind_throw; [| exact E]. reflexivity. }
        erewrite bind_throw; [| exact Hi]. reflexivity.
    + erewrite bind_run; [| reflexivity]; cbv beta iota.
      destruct (guarded_init_total (p_init parameters) wm) as [[] Ht]. exact Ht.
  - unfold watchForContainer.
    erewrite bind_run; [| reflexivity]; cbv beta iota.
    match goal with |- ((if ?b then _ else _) _).1 = _ => destruct b end; reflexivity.
Qed.

(** ** The buttons of a submenu *)

Lemma insert_desc_elem a l x : x ∈ JS.insert_desc a l <-> x = a \/ x ∈ l.
Proof.
  induction l as [|b l IH]; simpl.
  - rewrite list_elem_of_singleton. split; [auto | intros [H|H]; [exact H | inversion H]].
  - destruct (JS.compare_desc a b <=? 0)%Z.
    + rewrite elem_of_cons. reflexivity.
    + rewrite !elem_of_cons, IH. tauto.
Qed.

Lemma sort_desc_elem l x : x ∈ JS.sort_desc l <-> x ∈ l.
Proof.
  unfold JS.sort_desc. induction l as [|a l IH]; simpl; [reflexivity|].
  rewrite insert_desc_elem, IH, elem_of_cons. reflexivity.
Qed.

Lemma own_key_get {A} (obj : JS.props A) k :
  k ∈ JS.own_keys obj -> exists a, JS.own_get obj k = Some a.
Proof.
  unfold JS.own_keys. induction obj as [|[k' a'] obj IH]; simpl.
  - intros H. inversion H.
  - intros H. destruct (String.eqb_spec k' k) as [->|Hne]; [eauto|].
    apply elem_of_cons in H as [->|H]; [congruence | apply IH, H].
Qed.

Lemma get_own_inv {A} (obj : JS.props A) k a :
  JS.get obj k = JS.Own a -> JS.own_get obj k = Some a.
Proof.
  unfold JS.get. destruct (JS.own_get obj k); [congruence|].
  destruct (JS.in_prototype k); discriminate.
Qed.

(** The loop over the option keys, for keys that are the object's own. *)
Lemma sub_buttons_spec setting value options arr w bss w' :
  (forall k, k ∈ arr -> k ∈ JS.own_keys options) ->
  map_m (sub_button setting value options) arr w = (Normal bss, w') ->
  (forall b, b ∈ concat bss ->
     sb_name b = setting /\ sb_value b ∈ arr
     /\ visible options (sb_value b) = true
     /\ sb_active b = JS.strict_eq (JS.Str (sb_value b)) value)
  /\ (forall k, k ∈ arr -> visible options k = true ->
        exists b, b ∈ concat bss /\ sb_value b = k).
Proof.
  revert bss w'. induction arr as [|k arr IH]; intros bss w' Hown; simpl.
  - intros [= <- <-]. split; [intros b Hb | intros k Hk]; simpl in *.
    + inversion Hb.
    + inversion Hk.
  - unfold bind at 1.
    destruct (own_key_get options k) as [od Hod]; [apply Hown; left|].
    unfold sub_button at 1. rewrite (get_own _ _ _ Hod).
    assert (Hv : visible options k = shown od) by (unfold visible; rewrite Hod; reflexivity).
    assert (Hown' : forall k', k' ∈ arr -> k' ∈ JS.own_keys options)
      by (intros k' Hk'; apply Hown; right; exact Hk').
    destruct (shown od) eqn:Hs; simpl; unfold bind;
      destruct (map_m (sub_button setting value options) arr w) as [[bs|e] w1] eqn:E;
      simpl; try discriminate; intros [= <- <-];
      destruct (IH bs w1 Hown' eq_refl) as [IH1 IH2]; simpl; split.
    + intros b Hb. apply elem_of_cons in Hb as [->|Hb]; simpl.
      * repeat split; [left | exact Hv].
      * destruct (IH1 b Hb) as (? & ? & ? & ?). repeat split; auto. right. assumption.
    + intros k' Hk' Hvis. apply elem_of_cons in Hk' as [->|Hk'].
      * eexists. split; [left | reflexivity].
      * destruct (IH2 k' Hk' Hvis) as (b & Hb & Hbv). exists b. split; [right|]; assumption.
    + intros b Hb. destruct (IH1 b Hb) as (? & ? & ? & ?). repeat split; auto.
      right. assumption.
    + intros k' Hk' Hvis. apply elem_of_cons in Hk' as [->|Hk'].
      * congruence.
      * apply IH2; assumption.
Qed.

Lemma elem_of_concat {A} (x : A) (ls : list (list A)) :
  x ∈ concat ls <-> exists l, x ∈ l /\ l ∈ ls.
Proof.
  induction ls as [|l ls IH]; simpl.
  - split; [intros H; inversion H | intros (l & _ & H); inversion H].
  - rewrite elem_of_app, IH. split.
    + intros [H|(l' & H1 & H2)]; [exists l; split; [exact H | left] |].
      exists l'. split; [exact H1 | right; exact H2].
    + intros (l' & H1 & H2). apply elem_of_cons in H2 as [->|H2]; [left; exact H1|].
      right. exists l'. split; assumption.
Qed.

Lemma map_m_normal {A B} (f : A -> M B) (xs : list A) w ys w' :
  (forall x, (f x w).2 = w) ->
  map_m f xs w = (Normal ys, w') ->
  Forall2 (fun x y => (f x w).1 = Normal y) xs ys.
Proof.
  intros Hp. revert ys w'. induction xs as [|x xs IH]; intros ys w'; simpl.
  - intros [= <- <-]. constructor.
  - unfold bind. specialize (Hp x) as Hx.
    destruct (f x w) as [[y|e] w1] eqn:E; simpl in Hx; subst; [| discriminate].
    destruct (map_m f xs w) as [[ys'|e] w2] eqn:E2; [| discriminate].
    intros [= <- <-]. constructor; [rewrite E; reflexivity | eapply IH; reflexivity].
Qed.

(** What one setting contributes to the markup. *)
Lemma generate_setting_submenu setting w fragment m buttons :
  (generate_setting setting w).1 = Normal fragment ->
  SubMenu m buttons ∈ fragment ->
  m = setting
  /\ exists def,
       JS.own_get (settings w) setting = Some def
       /\ d_type (s_d def) = "submenu"
       /\ (forall b, b ∈ buttons ->
             sb_name b = setting
             /\ sb_value b ∈ JS.own_keys (s_o def)
             /\ visible (s_o def) (sb_value b) = true
             /\ sb_active b = JS.strict_eq (JS.Str (sb_value b)) (s_v def))
       /\ (forall k, k ∈ JS.own_keys (s_o def) -> visible (s_o def) k = true ->
             exists b, b ∈ buttons /\ sb_value b = k).
Proof.
  unfold generate_setting.
  rewrite (bind_run _ _ w _ w (setting_object_run w setting)).
  cbv beta.
  destruct (JS.get (settings w) setting) as [def| |] eqn:Hget; try discriminate.
  cbv beta iota zeta.
  erewrite bind_run; [| apply option_at_some]; cbv beta iota.
  unfold dot_s at 1, field.
  destruct (JS.get (s_o def) (JS.to_string (s_v def))); try discriminate;
    (unfold bind at 1; simpl;
     destruct (String.eqb_spec (d_type (s_d def)) "submenu") as [Ht|Ht];
     [| intros [= <-] Hin; apply elem_of_cons in Hin as [Hin|Hin];
        [discriminate | inversion Hin]]).
  all: erewrite bind_run; [| apply option_at_some]; cbv beta iota.
  all: unfold dot_s at 1, field.
  all: destruct (JS.get (s_o def) _) as [first| |]; try discriminate.
  all: unfold bind at 1; simpl.
  all: unfold bind.
  all: match goal with
       | |- context [map_m ?f ?arr ?w0] =>
           destruct (map_m f arr w0) as [[bss|e] w1] eqn:E; try discriminate;
           assert (Harr : forall k, k ∈ arr <-> k ∈ JS.own_keys (s_o def))
             by (intros k; try destruct (negb _);
                 rewrite ?sort_desc_elem, keys_perm; reflexivity)
       end.
  all: intros [= <-] Hin.
  all: apply elem_of_cons in Hin as [Hin|Hin]; [discriminate|].
  all: apply elem_of_cons in Hin as [Hin|Hin]; [| inversion Hin].
  all: injection Hin as -> ->.
  all: split; [reflexivity|].
  all: exists def; split; [apply get_own_inv, Hget|]; split; [exact Ht|].
  all: destruct (sub_buttons_spec _ _ _ _ _ _ _ (fun k Hk => proj1 (Harr k) Hk) E)
         as [H1 H2].
  all: split.
  all: try (intros b Hb; destruct (H1 b Hb) as (? & ? & ? & ?);
            repeat split; auto; apply Harr; assumption).
  all: intros k Hk Hvis; apply H2; [apply Harr|]; assumption.
Qed.

(** X12: in the markup that [generateDOM] returns, the buttons of a
    submenu are exactly the options of the setting that are not hidden:
    each has the setting's name, stands for a non-hidden own option, and
    is Active just when the in-memory value is the string of its key, and
    every such option has a button. *)
Theorem sub_buttons_are_the_visible_options (w : World) (fragment : list Element)
    (m : string) (buttons : list SubButton) :
  result generateDOM w = Normal fragment ->
  SubMenu m buttons ∈ fragment ->
  exists def,
    JS.own_get (settings w) m = Some def
    /\ d_type (s_d def) = "submenu"
    /\ (forall b, b ∈ buttons ->
          sb_name b = m
          /\ sb_value b ∈ JS.own_keys (s_o def)
          /\ visible (s_o def) (sb_value b) = true
          /\ sb_active b = JS.strict_eq (JS.Str (sb_value b)) (s_v def))
    /\ (forall k, k ∈ JS.own_keys (s_o def) -> visible (s_o def) k = true ->
          exists b, b ∈ buttons /\ sb_value b = k).
Proof.
  unfold result, generateDOM.
  rewrite (bind_run get_world _ w w w eq_refl). unfold bind.
  destruct (map_m generate_setting (JS.keys (settings w)) w) as [[frs|e] w1] eqn:E;
    [| discriminate].
  intros [= <-] Hin.
  apply map_m_normal in E;
    [| intros x; apply (generate_setting_depends x w w eq_refl)].
  apply elem_of_concat in Hin as (fr & Hin & Hfr).
  apply list_elem_of_lookup in Hfr as [i Hi].
  destruct (Forall2_lookup_r _ _ _ _ _ E Hi) as (setting & _ & Hrun).
  destruct (generate_setting_submenu setting w fr m buttons Hrun Hin) as [-> H].
  exact H.
Qed.

(** ** The successor that [next] answers *)

Lemma index_of_from_range (s : Z) (arr : list string) (k : string) :
  (JS.index_of_from s arr k = -1
   \/ s <= JS.index_of_from s arr k < s + Z.of_nat (length arr))%Z.
Proof.
  revert s. induction arr as [|x arr IH]; intros s; simpl; [left; reflexivity|].
  destruct (String.eqb x k); [right; lia|].
  destruct (IH (s + 1)%Z) as [H|H]; [left; exact H | right; lia].
Qed.

Lemma indexOf_range (arr : list string) (v : JS.value) :
  (JS.indexOf arr v = -1 \/ 0 <= JS.indexOf arr v < Z.of_nat (length arr))%Z.
Proof.
  destruct v; simpl; try (left; reflexivity).
  apply (index_of_from_range 0).
Qed.

Lemma at_index_in_range (arr : list string) (i : Z) :
  (0 <= i < Z.of_nat (length arr))%Z ->
  exists k, JS.at_index arr i = JS.Str k /\ k ∈ arr.
Proof.
  intros H. unfold JS.at_index. destruct (Z.ltb_spec i 0); [lia|].
  destruct (lookup_lt_is_Some_2 arr (Z.to_nat i)) as [k Hk]; [lia|].
  rewrite Hk. exists k. split; [reflexivity|]. eapply list_elem_of_lookup_2, Hk.
Qed.

Lemma current_option_run setting (current : JS.value) w :
  exists v w',
    (if JS.strict_eq current (JS.Str EmptyString)
     then getSetting setting else ret current) w = (Normal v, w').
Proof.
  destruct (JS.strict_eq _ _).
  - destruct (getSetting_total setting w) as [v Hv].
    destruct (getSetting setting w) as [r w'] eqn:E. simpl in Hv. subst r.
    exists v, w'. reflexivity.
  - exists current, w. reflexivity.
Qed.

Lemma getSetting_quiet w setting def :
  JS.own_get (settings w) setting = Some def ->
  getItem_throws (storage w) = false ->
  exists v, getSetting setting w = (Normal v, w).
Proof.
  intros Hs Hg.
  unfold getSetting, try_catch, localStorage_getItem, bind, get_world.
  rewrite Hg. unfold ret.
  destruct (items (storage w) !! setting) as [stored|]; [eexists; reflexivity|].
  unfold setting_object, bind, get_world, ret. rewrite (get_own _ _ _ Hs).
  eexists. reflexivity.
Qed.

Lemma current_option_quiet setting def (current : JS.value) w :
  JS.own_get (settings w) setting = Some def ->
  getItem_throws (storage w) = false ->
  exists v,
    (if JS.strict_eq current (JS.Str EmptyString)
     then getSetting setting else ret current) w = (Normal v, w).
Proof.
  intros Hs Hg. destruct (JS.strict_eq _ _).
  - apply (getSetting_quiet w setting def Hs Hg).
  - exists current. reflexivity.
Qed.

(** The key that [next] answers is a key of the options; the world is
    left as it was when the store can be read. *)
Lemma next_in_options w setting def current :
  JS.own_get (settings w) setting = Some def ->
  s_o def <> [] ->
  exists r k w',
    next setting current w = (Normal r, w')
    /\ n r = JS.Str k
    /\ k ∈ JS.own_keys (s_o def)
    /\ (getItem_throws (storage w) = false -> w' = w).
Proof.
  intros Hs Hne. unfold next, getNextOption. cbv zeta.
  erewrite bind_run; [| apply setting_object_own; exact Hs]; cbv beta iota.
  erewrite bind_run; [| reflexivity]; cbv beta iota.
  destruct (current_option_run setting (default_empty current) w) as (v & w' & Hv).
  assert (Hq : getItem_throws (storage w) = false -> w' = w).
  { intros Hg.
    destruct (current_option_quiet setting def (default_empty current) w Hs Hg)
      as [v' Hv'].
    rewrite Hv' in Hv. congruence. }
  erewrite bind_run; [| exact Hv]; cbv beta iota.
  unfold enumerate.
  set (keys := JS.keys (s_o def)).
  assert (Hlen : (0 < Z.of_nat (length keys))%Z).
  { subst keys. rewrite (Permutation_length (keys_perm (s_o def))).
    unfold JS.own_keys. rewrite length_fmap.
    destruct (s_o def); [congruence | simpl; lia]. }
  assert (Hin : forall k, k ∈ keys -> k ∈ JS.own_keys (s_o def))
    by (intros k; subst keys; rewrite keys_perm; auto).
  set (i := if (JS.indexOf keys v =? -1)%Z
            then JS.indexOf keys (JS.JSON_stringify v) else JS.indexOf keys v).
  assert (Hi : (i = -1 \/ 0 <= i < Z.of_nat (length keys))%Z).
  { subst i. destruct (JS.indexOf keys v =? -1)%Z; apply indexOf_range. }
  destruct (Z.eqb_spec i (Z.of_nat (length keys) - 1)) as [E|E].
  - destruct (at_index_in_range keys 0) as (k & Hk & Hkin); [lia|].
    erewrite bind_run; [| apply option_at_some]; cbv beta iota.
    eexists _, k, w'. split; [reflexivity|].
    split; [exact Hk|]. split; [apply Hin, Hkin | exact Hq].
  - destruct (at_index_in_range keys (i + 1)) as (k & Hk & Hkin); [lia|].
    erewrite bind_run; [| apply option_at_some]; cbv beta iota.
    eexists _, k, w'. split; [reflexivity|].
    split; [exact Hk|]. split; [apply Hin, Hkin | exact Hq].
Qed.

(** X13: for a registered setting with at least one option, [next] answers
    the key of one of the options, whatever it is given as the current
    option and whatever the store holds: the index never leaves the
    array. *)
Theorem next_answers_an_option_key (w : World) (setting : string)
    (def : SettingDefinition) (current : JS.value) :
  JS.own_get (settings w) setting = Some def ->
  s_o def <> [] ->
  exists r k,
    result (next setting current) w = Normal r
    /\ n r = JS.Str k
    /\ k ∈ JS.own_keys (s_o def).
Proof.
  intros Hs Hne. unfold result.
  destruct (next_in_options w setting def current Hs Hne)
    as (r & k & w' & Hrun & Hn & Hk & _).
  exists r, k. rewrite Hrun. auto.
Qed.

(** X14: asked about a name that is not a setting of the list, [next]
    throws a TypeError: for a name found nowhere when it reads [o], and
    for a name that every object inherits when it reads the first
    option. *)
Theorem next_throws_on_an_unregistered_name (w : World) (setting : string)
    (current : JS.value) :
  JS.own_get (settings w) setting = None ->
  result (next setting current) w = Throw TypeError.
Proof.
  intros Hs. unfold result, next, getNextOption. cbv zeta.
  erewrite bind_run; [| apply setting_object_run]; cbv beta iota.
  unfold JS.get. rewrite Hs.
  destruct (JS.in_prototype setting).
  - erewrite bind_run; [| reflexivity]; cbv beta iota.
    destruct (current_option_run setting (default_empty current) w) as (v & w' & Hv).
    erewrite bind_run; [| exact Hv]; cbv beta iota.
    assert (Hnil : forall x, JS.indexOf [] x = (-1)%Z) by (intros []; reflexivity).
    unfold enumerate. rewrite !Hnil. reflexivity.
  - reflexivity.
Qed.

(** ** init on every list *)

Lemma setSetting_returns w setting args :
  JS.get (settings w) setting <> JS.Absent ->
  exists w', setSetting setting args w = (Normal tt, w').
Proof.
  intros Hs. unfold setSetting.
  erewrite bind_run; [| reflexivity]; cbv beta iota.
  set (wa := with_trace _ w).
  erewrite bind_run; [| apply setting_object_run]; cbv beta iota.
  change (settings wa) with (settings w).
  destruct (JS.get (settings w) setting) as [def| |]; [| | congruence].
  - erewrite bind_run; [| reflexivity]; cbv beta iota.
    apply setSetting_total_some.
  - erewrite bind_run; [| reflexivity]; cbv beta iota.
    apply setSetting_total_some.
Qed.

Lemma for_each_returns {A} (P : World -> Prop) (xs : list A) (body : A -> M unit) w :
  (forall x w0, x ∈ xs -> P w0 -> exists w1, body x w0 = (Normal tt, w1) /\ P w1) ->
  P w ->
  exists w', for_each xs body w = (Normal tt, w') /\ P w'.
Proof.
  revert w. induction xs as [|x xs IH]; intros w Hb Hw; simpl.
  - exists w. split; [reflexivity | exact Hw].
  - destruct (Hb x w) as (w1 & H1 & Hw1); [left | exact Hw |].
    destruct (IH w1) as (w' & H' & Hw'); [| exact Hw1 |].
    + intros y w0 Hy. apply Hb. right. exact Hy.
    + exists w'. split; [| exact Hw']. erewrite bind_run; [| exact H1]. exact H'.
Qed.

Lemma init_returns w :
  exists w', init w = (Normal tt, w') /\ registry_part w' = registry_part w.
Proof.
  unfold init. rewrite (bind_run get_world _ w w w eq_refl).
  apply (for_each_returns (fun w0 => registry_part w0 = registry_part w)); [| reflexivity].
  intros setting w0 Hin Hw0. unfold member_i.
  destruct (getSetting_total setting w0) as [v Hv].
  destruct (getSetting setting w0) as [r wg] eqn:Eg. simpl in Hv. subst r.
  assert (Hg : registry_part wg = registry_part w0).
  { pose proof (getSetting_keeps_registry setting w0) as H. rewrite Eg in H. exact H. }
  erewrite bind_run; [| exact Eg]; cbv beta iota.
  destruct (setSetting_returns wg setting (plain_args v)) as [w1 H1].
  - destruct (settings_of_registry_part w wg) as [Hs _]; [congruence|].
    rewrite Hs. rewrite keys_perm in Hin.
    destruct (own_key_get _ _ Hin) as [def Hdef].
    rewrite (get_own _ _ _ Hdef). discriminate.
  - exists w1. split; [exact H1|].
    pose proof (setSetting_keeps_registry setting (plain_args v) wg) as H.
    rewrite H1 in H. simpl in H. congruence.
Qed.

(** X15: [init] returns normally on every settings list and in every
    state of the store and of the document: no failure of a setting,
    refused value or storage error leaves it. *)
Theorem init_never_throws (w : World) : result init w = Normal tt.
Proof.
  unfold result. destruct (init_returns w) as (w' & -> & _). reflexivity.
Qed.

(** ** The observer *)

Lemma page_bind_run {A B} (c : PM A) (k : A -> PM B) p a p' :
  c p = (Normal a, p') -> page_bind c k p = k a p'.
Proof. unfold page_bind. intros ->. reflexivity. Qed.

Lemma lift_run {A} (c : M A) p r w' :
  c (engine p) = (r, w') -> lift c p = (r, with_engine w' p).
Proof. unfold lift. intros ->. reflexivity. Qed.

Lemma with_engine_same p : with_engine (engine p) p = p.
Proof. destruct p. reflexivity. Qed.

Lemma insertDOMAndInit_total : total insertDOMAndInit.
Proof.
  unfold insertDOMAndInit.
  apply total_bind; [| intros []];
    apply total_try_catch; intros e; unfold console_error, log; apply total_modify.
Qed.

(** X16: the observer's callback never throws, and it mounts once: when it
    has found the container it runs [insertDOM] and [init] on it, with
    their errors caught, and disconnects; whatever the document does
    afterwards, it does nothing more. *)
Theorem the_observer_mounts_once (p : Page) (element : list Element)
    (found : option (list Element)) :
  watching (engine p) = true ->
  disconnected p = false ->
  let p1 := (mutation (Some element) p).2 in
  (mutation (Some element) p).1 = Normal tt
  /\ engine p1 = after insertDOMAndInit (with_container (Some element) (engine p))
  /\ mutation found p1 = (Normal tt, p1).
Proof.
  intros Hw Hd. unfold mutation at 1 2 3. rewrite Hw, Hd. simpl andb. cbv iota.
  erewrite page_bind_run; [| apply lift_run; reflexivity].
  destruct (insertDOMAndInit_total (with_container (Some element) (engine p))) as [[] Ht].
  unfold after.
  destruct (insertDOMAndInit (with_container (Some element) (engine p))) as [r w1] eqn:E.
  simpl in Ht. subst r.
  erewrite page_bind_run; [| apply lift_run; simpl; exact E].
  simpl. split; [reflexivity|]. split; [reflexivity|].
  unfold mutation. simpl. rewrite andb_false_r. reflexivity.
Qed.




(** ** Clicks *)

Lemma with_jobs_same w : jobs w = [] -> with_jobs [] w = w.
Proof. destruct w. simpl. intros ->. reflexivity. Qed.

Lemma run_jobs_nil w : jobs w = [] -> run_jobs w = (Normal tt, w).
Proof.
  intros H. unfold run_jobs.
  rewrite (bind_run get_world _ w w w eq_refl).
  erewrite bind_run; [| reflexivity]; cbv beta iota.
  rewrite H. simpl. rewrite (with_jobs_same w H). reflexivity.
Qed.

Lemma click_unheard target p :
  jobs (engine p) = [] ->
  listener target p = (Normal tt, p) ->
  click target p = (Normal tt, p).
Proof.
  intros Hj Hl. unfold click. destruct (enabled target p); [| reflexivity].
  rewrite Hl. unfold lift. simpl. rewrite (run_jobs_nil _ Hj). simpl.
  rewrite with_engine_same. reflexivity.
Qed.

(** X18: between two tasks, a click on a top button that is active, on a
    sub-button that is Active, or on anything that is not a button
    changes nothing: the listener compares the whole class name, so an
    open menu is not closed by its own button and the current option is
    not set again. *)
Theorem click_on_an_active_button_does_nothing (p : Page) :
  jobs (engine p) = [] ->
  (forall i, i ∈ active_tops p -> click (AtTop i) p = (Normal tt, p))
  /\ (forall i j id buttons b,
        document p !! i = Some (SubMenu id buttons) ->
        buttons !! j = Some b ->
        sb_active b = true ->
        click (AtSub i j) p = (Normal tt, p))
  /\ click Elsewhere p = (Normal tt, p).
Proof.
  intros Hj. repeat split.
  - intros i Hi. apply click_unheard; [exact Hj|]. simpl.
    destruct (document p !! i) as [[b|id bs]|]; try reflexivity.
    rewrite bool_decide_eq_true_2 by exact Hi. reflexivity.
  - intros i j id buttons b Hd Hb Ha. apply click_unheard; [exact Hj|]. simpl.
    rewrite Hd, Hb, Ha. reflexivity.
  - apply click_unheard; [exact Hj | reflexivity].
Qed.

(** What a valid [set] leaves once the jobs it queued have run. *)
Lemma setSetting_then_jobs w setting k def od args :
  JS.own_get (settings w) setting = Some def ->
  defaults_ref w = settings_ref w ->
  JS.own_get (s_o def) k = Some od ->
  a_v args = JS.Str k ->
  setItem_throws (storage w) = false ->
  jobs w = [] ->
  exists w1, setSetting setting args w = (Normal tt, w1)
    /\ storage (run_jobs w1).2 = store setting (JS.Str k) (storage w).
Proof.
  intros Hs Hr Hk Hv Hp Hj.
  destruct (setSetting_valid w setting k def od args Hs (defaults_are_settings w Hr)
              Hk Hv Hp) as (w1 & Hrun & Hcases).
  exists w1. split; [exact Hrun|].
  destruct (run_jobs_spec w1) as [_ Hst]. unfold after in Hst. rewrite Hst.
  destruct Hcases as [(Hf & Hst1 & Hj1) | (Hf & Hst1 & l & Hj1 & Hl)].
  - rewrite Hj1, Hj. simpl. exact Hst1.
  - rewrite Hj1, foldl_app. simpl.
    rewrite callbacks_store_nothing, Hl. unfold persist_jobs. rewrite Hj. simpl.
    rewrite Hst1, Hp. reflexivity.
Qed.

(** X19: a click on a sub-button that is neither Active nor disabled hands
    the button's name and value to [setSetting]; when these name a
    setting and one of its options, the value is in the store at the end
    of the click's task, whether the option has a function or not, and
    no menu is opened or closed. *)
Theorem click_on_a_sub_button_stores_its_value (p : Page) (i j : nat) (id : string)
    (buttons : list SubButton) (b : SubButton) (def : SettingDefinition)
    (od : OptionDefinition) :
  document p !! i = Some (SubMenu id buttons) ->
  buttons !! j = Some b ->
  sb_active b = false ->
  sb_disabled b = false ->
  JS.own_get (settings (engine p)) (sb_name b) = Some def ->
  defaults_ref (engine p) = settings_ref (engine p) ->
  JS.own_get (s_o def) (sb_value b) = Some od ->
  getItem_throws (storage (engine p)) = false ->
  setItem_throws (storage (engine p)) = false ->
  jobs (engine p) = [] ->
  let p' := (click (AtSub i j) p).2 in
  (click (AtSub i j) p).1 = Normal tt
  /\ result (get (sb_name b)) (engine p') = Normal (JS.Str (sb_value b))
  /\ active_tops p' = active_tops p
  /\ open_menus p' = open_menus p.
Proof.
  intros Hd Hb Ha Hdis Hs Hr Hk Hg Hp Hj.
  destruct (setSetting_then_jobs (engine p) (sb_name b) (sb_value b) def od
              (plain_args (JS.Str (sb_value b))) Hs Hr Hk eq_refl Hp Hj)
    as (w1 & Hrun & Hst).
  unfold click, enabled. rewrite Hd, Hb, Hdis. simpl negb. cbv iota.
  unfold listener. rewrite Hd, Hb, Ha.
  rewrite (lift_run _ p _ _ Hrun). simpl.
  split; [reflexivity|]. split; [| split; reflexivity].
  apply getSetting_stored; rewrite Hst; simpl; [exact Hg | apply lookup_insert_eq].
Qed.

(** ** Menus *)

Lemma prefix_cons a s1 b s2 :
  String.prefix (String a s1) (String b s2)
  = if Ascii.ascii_dec a b then String.prefix s1 s2 else false.
Proof. reflexivity. Qed.

Lemma append_cons a s t : String a s ++ t = String a (s ++ t).
Proof. reflexivity. Qed.

Lemma append_nil t : EmptyString ++ t = t.
Proof. reflexivity. Qed.

Lemma prefix_Top_app x :
  String.prefix "Top" (x ++ "Top") = true -> x = EmptyString \/ String.prefix "Top" x = true.
Proof.
  destruct x as [|a [|b [|c x]]]; [left; reflexivity | ..];
    rewrite ?append_cons, ?append_nil, ?prefix_cons;
    repeat match goal with
           | |- context [Ascii.ascii_dec ?u ?v] =>
               destruct (Ascii.ascii_dec u v) as [e|ne];
               [try discriminate e; subst | ];
               rewrite ?prefix_cons
           end; try (intros H; discriminate H).
  all: intros _; right; destruct x; reflexivity.
Qed.

Lemma replace_Top_suffix setting :
  includes "Top" setting = false ->
  replace_first "Top" EmptyString (setting ++ "Top") = setting.
Proof.
  induction setting as [|c s IH]; intros H; [reflexivity|].
  cbn [includes] in H. apply orb_false_iff in H as [Hp Hi].
  assert (Hn : String.prefix "Top" (String c s ++ "Top") = false).
  { destruct (String.prefix "Top" (String c s ++ "Top")) eqn:E; [| reflexivity].
    apply prefix_Top_app in E as [E|E]; [discriminate|].
    rewrite E in Hp. discriminate. }
  change (replace_first "Top" EmptyString (String c s ++ "Top"))
    with (if String.prefix "Top" (String c s ++ "Top")
          then EmptyString ++ string_drop (String.length "Top") (String c s ++ "Top")
          else String c (replace_first "Top" EmptyString (s ++ "Top"))).
  rewrite Hn, (IH Hi). reflexivity.
Qed.

(** X20: a click on the button of a submenu setting opens the panel of
    that setting and no other: afterwards exactly this button is active
    and exactly this panel is open, and the engine is untouched.  The
    panel is looked up under the button's name with its first [Top]
    removed, which is the setting's name as long as that name does not
    contain [Top] itself. *)
Theorem click_opens_the_menu_of_its_button (p : Page) (i m : nat) (b : TopButton)
    (setting : string) :
  document p !! i = Some (Top b) ->
  i ∉ active_tops p ->
  has_attribute "disabled" b = false ->
  tb_type b = "submenu" ->
  tb_name b = setting ++ "Top" ->
  setting <> EmptyString ->
  includes "Top" setting = false ->
  find_menu setting 0 (document p) = Some m ->
  jobs (engine p) = [] ->
  click (AtTop i) p = (Normal tt, with_classes {[ i ]} {[ m ]} p).
Proof.
  intros Hd Hi Ha Ht Hn Hne Hinc Hm Hj.
  unfold click, enabled. rewrite Hd, Ha. simpl negb. cbv iota.
  assert (Hl : listener (AtTop i) p
               = (Normal tt, with_classes {[ i ]} {[ m ]} p)).
  { unfold listener. rewrite Hd.
    rewrite bool_decide_eq_false_2 by exact Hi.
    rewrite Ht. simpl String.eqb. cbv iota.
    unfold toggleSubMenu. cbv zeta.
    rewrite Hn, (replace_Top_suffix setting Hinc), Ht.
    unfold getElementById.
    destruct (String.eqb_spec setting EmptyString) as [E|_]; [contradiction|].
    rewrite Hm. simpl negb. cbv iota.
    f_equal. unfold with_classes. simpl. f_equal; apply set_eq; intros x.
    - rewrite elem_of_union, elem_of_filter, elem_of_singleton. tauto.
    - rewrite elem_of_union, elem_of_filter, elem_of_singleton.
      split; [intros [H|[H _]]; congruence | auto]. }
  rewrite Hl. unfold lift. simpl. rewrite (run_jobs_nil _ Hj). simpl.
  destruct p. reflexivity.
Qed.


(** ** Lists that render *)





(** ** executeSetting *)

Lemma log_keeps_option_calls e :
  is_option_call e = false -> keeps option_calls (log e).
Proof.
  intros H w. unfold log, option_calls. simpl.
  rewrite filter_app, filter_cons_False, filter_nil by congruence.
  apply app_nil_r.
Qed.
#[global] Hint Resolve log_keeps_option_calls : frames.
#[global] Hint Extern 1 (is_option_call _ = false) => reflexivity : frames.

Lemma updateDOM_keeps_option_calls setting value error :
  keeps option_calls (updateDOM setting value error).
Proof. unfold updateDOM, console_error. unfold_quiet_reads. frame. Qed.
#[global] Hint Resolve updateDOM_keeps_option_calls : frames.


(** X23: [executeSetting] throws, a TypeError, for a name found nowhere in
    the list and for no other: a value without option, an option without
    function and a function that throws all end in a normal return. *)
Theorem executeSetting_throws_only_on_an_unknown_setting (w : World) (setting : string)
    (args : ExecArgs) :
  defaults w = settings w ->
  match JS.get (settings w) setting with
  | JS.Absent => result (executeSetting setting args) w = Throw TypeError
  | _ => result (executeSetting setting args) w = Normal tt
  end.
Proof.
  intros Hd. unfold result.
  destruct (JS.get (settings w) setting) as [def| |] eqn:Hget.
  - apply get_own_inv in Hget. apply (executeSetting_returns w setting def args Hget Hd).
  - unfold executeSetting.
    assert (Hv : exists v, value_or_current setting (x_value args) w = (Normal v, w)).
    { unfold value_or_current. destruct (JS.truthy (x_value args)); [eexists; reflexivity|].
      erewrite bind_run; [| apply setting_object_run]; cbv beta iota. rewrite Hget.
      erewrite bind_run; [| reflexivity]; cbv beta iota.
      change (JS.truthy JS.Undefined) with false. cbv iota.
      assert (Hdef : default_object setting w = (Normal (@JS.Inherited SettingDefinition), w)).
      { unfold default_object. rewrite (bind_run get_world _ w w w eq_refl).
        rewrite Hd, Hget. reflexivity. }
      erewrite bind_run; [| exact Hdef]; cbv beta iota.
      eexists. reflexivity. }
    destruct Hv as [v Hv].
    erewrite bind_run; [| exact Hv]; cbv beta iota.
    erewrite bind_run; [| apply setting_object_run]; cbv beta iota. rewrite Hget.
    erewrite bind_run; [| reflexivity]; cbv beta iota.
    reflexivity.
  - unfold executeSetting, value_or_current.
    destruct (JS.truthy (x_value args)).
    + erewrite bind_run; [| reflexivity]; cbv beta iota.
      erewrite bind_run; [| apply setting_object_run]; cbv beta iota. rewrite Hget.
      reflexivity.
    + unfold setting_object, bind, get_world, ret, dot_v, field. rewrite Hget.
      reflexivity.
Qed.


(** ** Defaults and stored strings *)

(** X25: in every engine, whatever the parameters of the constructor, the
    defaults are the settings: the two getters answer the same object,
    and after any later [set] and its jobs every default read is the
    read of the setting. *)
Theorem defaults_are_the_settings_in_every_engine (parameters : Parameters) (w : World)
    (setting name : string) (args : Args) :
  let w1 := after (constructor parameters) w in
  let w2 := after (task (set setting args)) w1 in
  result getDefaults w1 = result getSettings w1
  /\ result (getDefaultObject name) w2 = result (getSettingObject name) w2
  /\ result (getDefault name) w2 = result (s <- getSettingObject name ;; dot_v s)%js w2.
Proof.
  intros w1 w2.
  assert (H1 : refs w1 = (p_settings parameters, p_settings parameters))
    by apply constructor_aliases.
  assert (H2 : refs w2 = refs w1).
  { apply (keeps_refs _ (task_keeps_registry _ (setSetting_keeps_registry setting args))). }
  assert (Hd : defaults w2 = settings w2).
  { apply defaults_are_settings. rewrite H1 in H2. unfold refs in H2. congruence. }
  split; [| split].
  - unfold result, getDefaults, getSettings, bind, get_world, ret. simpl.
    unfold refs in H1. congruence.
  - unfold result, getDefaultObject, getSettingObject, default_object, setting_object,
      bind, get_world, ret. simpl. rewrite Hd. reflexivity.
  - unfold result, getDefault, getSettingObject, default_object, setting_object.
    unfold bind at 1 3. unfold get_world, bind, ret. simpl. rewrite Hd. reflexivity.
Qed.


(** ** What the function of an option returns *)

(** X27: the function of an option has to return [true] itself: when it
    returns anything else, nothing for instance, the value is stored all
    the same and the control is updated with the error flag. *)
Theorem a_function_must_return_true (w : World) (setting k : string)
    (def : SettingDefinition) (od : OptionDefinition) (r : JS.value) (args : Args) :
  JS.own_get (settings w) setting = Some def ->
  defaults_ref w = settings_ref w ->
  JS.own_get (s_o def) k = Some od ->
  o_f od = Some (Returns r) ->
  r <> JS.Bool true ->
  k <> EmptyString ->
  a_v args = JS.Str k ->
  setItem_throws (storage w) = false ->
  jobs w = [] ->
  let w' := after (task (set setting args)) w in
  result (task (set setting args)) w = Normal tt
  /\ items (storage w') !! setting = Some k
  /\ CallUpdateDOM setting (JS.Str k) true ∈ trace w'.
Proof.
  intros Hs Hr Hk Hf Hne Hke Hv Hp Hj w'.
  pose proof (defaults_are_settings w Hr) as Hd.
  destruct (setSetting_then_jobs w setting k def od args Hs Hr Hk Hv Hp Hj)
    as (w1 & Hrun & Hst).
  destruct (setSetting_callback_run w setting k def od (Returns r) args Hs Hd Hk Hf Hv)
    as (wb & Hx & Hrun').
  rewrite Hrun in Hrun'. injection Hrun' as Hw1.
  rewrite (executeSetting_calls (with_trace (trace w ++ [CallSet setting (JS.Str k)]) w)
             setting k def od (Returns r) args Hs Hk Hf Hke) in Hx.
  unfold call_option, enqueue, log, bind, modify in Hx. simpl in Hx.
  injection Hx as Hwb.
  assert (Hjobs : jobs w1 = [CallbackJob setting (JS.Str k) (Fulfilled r);
                             PersistJob setting (JS.Str k)]).
  { rewrite Hw1, <- Hwb. simpl. rewrite Hj. reflexivity. }
  subst w'. unfold after, result, task, set. rewrite Hrun. cbn [fst snd].
  split; [| split].
  - reflexivity.
  - rewrite Hst. simpl. apply lookup_insert_eq.
  - unfold run_jobs.
    rewrite (bind_run get_world _ w1 w1 w1 eq_refl).
    erewrite bind_run; [| reflexivity]; cbv beta iota.
    rewrite Hjobs. cbn [for_each].
    set (w2 := with_jobs [] w1).
    assert (Hfirst : CallUpdateDOM setting (JS.Str k) true
                     ∈ trace (run_job (CallbackJob setting (JS.Str k) (Fulfilled r)) w2).2).
    { unfold run_job, JS.strict_eq. rewrite bool_decide_eq_false_2 by exact Hne.
      pose proof (updateDOM_logged setting (JS.Str k) true w2) as Hlog.
      destruct (updateDOM_run w2 setting (JS.Str k) true) as (b & wc & Hu & _).
      rewrite Hu in Hlog. erewrite bind_run; [| exact Hu]. exact Hlog. }
    destruct (run_job_total (CallbackJob setting (JS.Str k) (Fulfilled r)) w2) as [[] Ht].
    destruct (run_job (CallbackJob setting (JS.Str k) (Fulfilled r)) w2) as [r1 w3] eqn:E1.
    simpl in Ht, Hfirst. subst r1.
    erewrite bind_run; [| exact E1]; cbv beta iota.
    match goal with
    | |- _ ∈ trace (?c w3).2 =>
        assert (Hpres : preserves (fun w => CallUpdateDOM setting (JS.Str k) true ∈ trace w) c)
    end.
    { apply preserves_bind; [apply run_job_preserves_event | intros []].
      apply preserves_ret. }
    apply Hpres. exact Hfirst.
Qed.

(** ** What init leaves in the store *)

(** One round of the loop of [init], for a setting whose value is the
    key of an option without function and is stored already or not at
    all. *)
Lemma init_round w setting k def od :
  JS.own_get (settings w) setting = Some def ->
  defaults_ref w = settings_ref w ->
  s_v def = JS.Str k ->
  JS.own_get (s_o def) k = Some od ->
  o_f od = None ->
  getItem_throws (storage w) = false ->
  setItem_throws (storage w) = false ->
  items (storage w) !! setting = None \/ items (storage w) !! setting = Some k ->
  exists w1,
    (v <- getSetting setting ;; setSetting setting (plain_args v))%js w = (Normal tt, w1)
    /\ storage w1 = store setting (JS.Str k) (storage w)
    /\ jobs w1 = jobs w
    /\ registry_part w1 = registry_part w.
Proof.
  intros Hs Hr Hv Hk Hf Hg Hp Hi.
  assert (Hget : getSetting setting w = (Normal (JS.Str k), w)).
  { unfold getSetting, try_catch, localStorage_getItem, bind, get_world.
    rewrite Hg. unfold ret.
    destruct Hi as [-> | ->]; [| reflexivity].
    unfold setting_object, bind, get_world, ret. rewrite (get_own _ _ _ Hs).
    simpl. rewrite Hv. reflexivity. }
  erewrite bind_run; [| exact Hget]; cbv beta iota.
  destruct (setSetting_valid w setting k def od (plain_args (JS.Str k)) Hs
              (defaults_are_settings w Hr) Hk eq_refl Hp) as (w1 & Hrun & Hc).
  exists w1. split; [exact Hrun|].
  destruct Hc as [(_ & Hst & Hj) | (Hf' & _)]; [| congruence].
  split; [exact Hst|]. split; [exact Hj|].
  pose proof (setSetting_keeps_registry setting (plain_args (JS.Str k)) w) as H.
  rewrite Hrun in H. exact H.
Qed.

Lemma init_loop (w : World) (xs : list string) :
  defaults_ref w = settings_ref w ->
  (forall setting def,
     JS.own_get (settings w) setting = Some def ->
     exists k od, s_v def = JS.Str k /\ JS.own_get (s_o def) k = Some od /\ o_f od = None) ->
  (forall x, x ∈ xs -> x ∈ JS.own_keys (settings w)) ->
  forall (done : string -> Prop) (w0 : World),
    registry_part w0 = registry_part w ->
    getItem_throws (storage w0) = false ->
    setItem_throws (storage w0) = false ->
    (forall s def, JS.own_get (settings w) s = Some def ->
       items (storage w0) !! s = None
       \/ items (storage w0) !! s = Some (JS.to_string (s_v def))) ->
    (forall s def, done s -> JS.own_get (settings w) s = Some def ->
       items (storage w0) !! s = Some (JS.to_string (s_v def))) ->
    exists w',
      for_each xs (fun setting =>
                     v <- getSetting setting ;; setSetting setting (plain_args v))%js w0
      = (Normal tt, w')
      /\ getItem_throws (storage w') = false
      /\ (forall s def, (done s \/ s ∈ xs) -> JS.own_get (settings w) s = Some def ->
            items (storage w') !! s = Some (JS.to_string (s_v def))).
Proof.
  intros Hrefs Hvalid. induction xs as [|x xs IH]; intros Hreg done w0 Hr Hg Hp Hinv Hdone.
  - exists w0. split; [reflexivity|]. split; [exact Hg|].
    intros s def [Hs|Hs] Hdef; [apply Hdone; assumption | inversion Hs].
  - destruct (own_key_get _ _ (Hreg x ltac:(left))) as [def Hdef].
    destruct (Hvalid x def Hdef) as (k & od & Hv & Hk & Hf).
    destruct (settings_of_registry_part w w0 Hr) as [Hs0 Hd0].
    assert (Hr0 : defaults_ref w0 = settings_ref w0).
    { unfold registry_part in Hr. injection Hr as _ Hsr Hdr. congruence. }
    assert (Hx : items (storage w0) !! x = None \/ items (storage w0) !! x = Some k).
    { destruct (Hinv x def Hdef) as [H|H]; [left; exact H | right].
      rewrite H, Hv. reflexivity. }
    assert (Hdef0 : JS.own_get (settings w0) x = Some def) by (rewrite Hs0; exact Hdef).
    destruct (init_round w0 x k def od Hdef0 Hr0 Hv Hk Hf Hg Hp Hx)
      as (w1 & Hrun & Hst & _ & Hr1).
    assert (Hlook : forall s, items (storage w1) !! s
                              = if decide (x = s) then Some k else items (storage w0) !! s).
    { intros s. rewrite Hst. simpl. destruct (decide (x = s)) as [->|Hne].
      - apply lookup_insert_eq.
      - apply lookup_insert_ne. exact Hne. }
    destruct (IH (fun y Hy => Hreg y ltac:(right; exact Hy))
                 (fun s => done s \/ s = x) w1) as (w' & Hloop & Hg' & Hall).
    + congruence.
    + rewrite Hst. exact Hg.
    + rewrite Hst. exact Hp.
    + intros s d Hd. rewrite Hlook. destruct (decide (x = s)) as [<-|_]; [| apply Hinv, Hd].
      right. rewrite Hdef in Hd. injection Hd as <-. rewrite Hv. reflexivity.
    + intros s d Hs Hd. rewrite Hlook. destruct (decide (x = s)) as [<-|Hne].
      * rewrite Hdef in Hd. injection Hd as <-. rewrite Hv. reflexivity.
      * destruct Hs as [Hs| ->]; [apply Hdone; assumption | contradiction].
    + exists w'. split; [| split; [exact Hg'|]].
      * cbn [for_each]. erewrite bind_run; [| exact Hrun]. exact Hloop.
      * intros s d Hs Hd. apply Hall; [| exact Hd].
        destruct Hs as [Hs|Hs]; [left; left; exact Hs|].
        apply elem_of_cons in Hs as [->|Hs]; [left; right; reflexivity | right; exact Hs].
Qed.

(** X28: [init] writes the list into the store: when the value of every
    setting is the key of an option without function, and the store
    holds nothing or that key for it, then after [init] the store holds
    the value of every setting, and [get] answers it from the store. *)
Theorem init_stores_every_value (w : World) :
  defaults_ref w = settings_ref w ->
  getItem_throws (storage w) = false ->
  setItem_throws (storage w) = false ->
  (forall setting def,
     JS.own_get (settings w) setting = Some def ->
     (items (storage w) !! setting = None
      \/ items (storage w) !! setting = Some (JS.to_string (s_v def)))
     /\ exists k od,
          s_v def = JS.Str k /\ JS.own_get (s_o def) k = Some od /\ o_f od = None) ->
  forall setting def,
    JS.own_get (settings w) setting = Some def ->
    items (storage (after init w)) !! setting = Some (JS.to_string (s_v def))
    /\ result (get setting) (after init w) = Normal (s_v def).
Proof.
  intros Hr Hg Hp Hall setting def Hdef.
  destruct (init_loop w (JS.keys (settings w)) Hr
              (fun s d Hd => proj2 (Hall s d Hd))
              (fun x Hx => proj1 (elem_of_Permutation_proper _ _ _ (keys_perm _)) Hx)
              (fun _ => False) w eq_refl Hg Hp
              (fun s d Hd => proj1 (Hall s d Hd))
              (fun s d F _ => False_ind _ F))
    as (w' & Hloop & Hg' & Hstored).
  assert (Hinit : init w = (Normal tt, w')).
  { unfold init, member_i. rewrite (bind_run get_world _ w w w eq_refl). exact Hloop. }
  unfold after, result. rewrite Hinit. cbn [snd].
  assert (Hitem : items (storage w') !! setting = Some (JS.to_string (s_v def))).
  { apply Hstored; [| exact Hdef]. right. rewrite keys_perm.
    eapply own_get_key, Hdef. }
  split; [exact Hitem|].
  destruct (proj2 (Hall setting def Hdef)) as (k & od & Hv & _).
  rewrite Hv in *. apply getSetting_stored; assumption.
Qed.

(** ** A button without panel, and a store that cannot be read *)

(** X29: when no panel carries the id that [toggleSubMenu] derives from
    the button's name, a click on the button of a submenu setting throws
    a TypeError, after every panel has been closed and every top button
    deactivated. *)
Theorem click_on_a_button_without_panel_throws (p : Page) (i : nat) (b : TopButton) :
  document p !! i = Some (Top b) ->
  i ∉ active_tops p ->
  has_attribute "disabled" b = false ->
  tb_type b = "submenu" ->
  getElementById (replace_first "Top" EmptyString (tb_name b)) (document p) = None ->
  jobs (engine p) = [] ->
  click (AtTop i) p = (Throw TypeError, with_classes ∅ ∅ p).
Proof.
  intros Hd Hi Ha Ht Hm Hj.
  unfold click, enabled. rewrite Hd, Ha. simpl negb. cbv iota.
  assert (Hl : listener (AtTop i) p = (Throw TypeError, with_classes ∅ ∅ p)).
  { unfold listener. rewrite Hd.
    rewrite bool_decide_eq_false_2 by exact Hi.
    rewrite Ht. simpl String.eqb. cbv iota.
    unfold toggleSubMenu. cbv zeta. rewrite Hm, Ht. simpl negb. cbv iota.
    f_equal. unfold with_classes. f_equal; apply set_eq; intros x;
      rewrite elem_of_filter, elem_of_empty.
    - split; [intros [-> Hx]; exact (Hi Hx) | tauto].
    - split; [intros [Hx _]; discriminate Hx | tauto]. }
  rewrite Hl. unfold lift. simpl. rewrite (run_jobs_nil _ Hj). simpl.
  destruct p. reflexivity.
Qed.

(** X30: [get] never throws.  When the store cannot be read it answers
    [null], also for a registered setting; a string that is stored is
    answered as it is, option or not; and with nothing stored it
    answers the in-memory value, [undefined] for a name every object
    inherits, and [null] for a name found nowhere. *)
Theorem get_never_throws (w : World) (setting : string) :
  result (get setting) w
  = Normal (if getItem_throws (storage w) then JS.Null
            else match items (storage w) !! setting with
                 | Some stored => JS.Str stored
                 | None =>
                     match JS.get (settings w) setting with
                     | JS.Own def => s_v def
                     | JS.Inherited => JS.Undefined
                     | JS.Absent => JS.Null
                     end
                 end).
Proof.
  unfold result, get, getSetting, try_catch, localStorage_getItem, setting_object,
    bind, get_world, console_log, log, modify, dot_v, field, throw, ret.
  cbv beta.
  destruct (getItem_throws (storage w)); [reflexivity|].
  destruct (items (storage w) !! setting) as [stored|]; [reflexivity|].
  destruct (JS.get (settings w) setting); reflexivity.
Qed.

(** * Witnesses *)

(** Setting option2 of the example list, whose options declare a
    function, on a fresh engine. *)
Lemma set_then_get_witness :
  let w := new_SettingsManager settingsList in
  let args := plain_args (JS.Str "option2") in
  let w1 := after (set "setting1" args) w in
  result (set "setting1" args) w = Normal tt
  /\ result (get "setting1") (after run_jobs w1) = Normal (JS.Str "option2")
  /\ (o_f (option_with (JS.Str "Option 2") (Returns (JS.Bool true))) = None ->
      result (get "setting1") w1 = Normal (JS.Str "option2")).
Proof.
  apply (set_then_get (new_SettingsManager settingsList) "setting1" "option2"
           setting1 (option_with (JS.Str "Option 2") (Returns (JS.Bool true)))
           (plain_args (JS.Str "option2")));
    vm_compute; reflexivity.
Defined.

(** Cycling through the theme setting, from the key "light". *)
Lemma next_cycles_witness :
  let w := new_SettingsManager themeList in
  let keys := JS.keys (s_o theme) in
  (forall current, exists r, result (next "theme" current) w = Normal r)
  /\ Nat.iter (length (s_o theme)) (next_key w "theme") (JS.Str "light") = JS.Str "light"
  /\ (forall first final, head keys = Some first -> last keys = Some final ->
        next_key w "theme" (JS.Str final) = JS.Str first)
  /\ ((forall key, key ∈ JS.own_keys (s_o theme) -> JS.array_index key = None) ->
        keys = JS.own_keys (s_o theme)).
Proof.
  apply (next_cycles (new_SettingsManager themeList) "theme" theme "light").
  - vm_compute. reflexivity.
  - apply (bool_decide_unpack _). vm_compute. exact I.
  - apply (bool_decide_unpack _). vm_compute. exact I.
  - apply (bool_decide_unpack _). vm_compute. exact I.
Defined.

(** Setting the theme while the store throws. *)
Lemma set_reports_a_store_that_throws_witness :
  let w := with_broken_store themeList in
  let w' := after (set "theme" (plain_args (JS.Str "light"))) w in
  result (set "theme" (plain_args (JS.Str "light"))) w = Normal tt
  /\ storage w' = storage w
  /\ jobs w' = jobs w
  /\ CallUpdateDOM "theme" (JS.Str "light") true ∈ trace w'.
Proof.
  apply (set_reports_a_store_that_throws (with_broken_store themeList) "theme" "light"
           theme (plain_option JS.Undefined) (plain_args (JS.Str "light")));
    vm_compute; reflexivity.
Defined.

(** Setting option2 of the example list while the store throws. *)
Lemma set_with_callback_hides_a_store_that_throws_witness :
  let w := with_broken_store settingsList in
  let args := plain_args (JS.Str "option2") in
  let w2 := after (task (set "setting1" args)) w in
  result (task (set "setting1" args)) w = Normal tt
  /\ storage w2 = storage w
  /\ UnhandledRejection ∈ trace w2
  /\ (Returns (JS.Bool true) = Returns (JS.Bool true) -> "option2" <> EmptyString ->
      jobs w = [] -> error_updates w2 = error_updates w).
Proof.
  apply (set_with_callback_hides_a_store_that_throws (with_broken_store settingsList)
           "setting1" "option2" setting1
           (option_with (JS.Str "Option 2") (Returns (JS.Bool true)))
           (Returns (JS.Bool true)) (plain_args (JS.Str "option2")));
    vm_compute; reflexivity.
Defined.

(** The quality setting: high has a function, low has none. *)
Lemma earlier_set_with_callback_wins_witness :
  let w := new_SettingsManager qualityList in
  let both := (set "quality" (plain_args (JS.Str "high")) ;;;
               set "quality" (plain_args (JS.Str "low")))%js in
  result (get "quality") (after both w) = Normal (JS.Str "low")
  /\ result (get "quality") (after (task both) w) = Normal (JS.Str "high").
Proof.
  apply (earlier_set_with_callback_wins (new_SettingsManager qualityList) "quality"
           "high" "low" quality
           (option_with (JS.Str "High") (Pending (Fulfilled (JS.Bool true))))
           (plain_option (JS.Str "Low")));
    vm_compute; try reflexivity; intros H; discriminate H.
Defined.


(** Inserting the markup of the theme setting twice. *)
Lemma insertDOM_twice_renders_twice_witness :
  let w := new_SettingsManager themeList in
  result (insertDOM ;;; insertDOM)%js w = Normal tt
  /\ container (after (insertDOM ;;; insertDOM)%js w)
     = Some ([Top theme_top] ++ [Top theme_top] ++ [Top theme_top])%list.
Proof.
  apply (insertDOM_twice_renders_twice (new_SettingsManager themeList)
           [Top theme_top] [Top theme_top]);
    vm_compute; reflexivity.
Defined.



(** The panel of the level setting. *)
Lemma sub_buttons_are_the_visible_options_witness :
  let w := new_SettingsManager (levelList ["1"; "2"; "3"]) in
  exists def,
    JS.own_get (settings w) "level" = Some def
    /\ d_type (s_d def) = "submenu"
    /\ (forall b, b ∈ level_buttons ->
          sb_name b = "level"
          /\ sb_value b ∈ JS.own_keys (s_o def)
          /\ visible (s_o def) (sb_value b) = true
          /\ sb_active b = JS.strict_eq (JS.Str (sb_value b)) (s_v def))
    /\ (forall k, k ∈ JS.own_keys (s_o def) -> visible (s_o def) k = true ->
          exists b, b ∈ level_buttons /\ sb_value b = k).
Proof.
  apply (sub_buttons_are_the_visible_options
           (new_SettingsManager (levelList ["1"; "2"; "3"]))
           [Top level_top; SubMenu "level" level_buttons] "level" level_buttons).
  - vm_compute. reflexivity.
  - right. left.
Defined.

(** The theme setting on a fresh engine with an empty store. *)
Lemma init_stores_every_value_witness :
  let w := new_SettingsManager themeList in
  items (storage (after init w)) !! "theme" = Some (JS.to_string (s_v theme))
  /\ result (get "theme") (after init w) = Normal (s_v theme).
Proof.
  apply (init_stores_every_value (new_SettingsManager themeList)).
  - vm_compute. reflexivity.
  - vm_compute. reflexivity.
  - vm_compute. reflexivity.
  - intros setting def H.
    change (JS.own_get (settings (new_SettingsManager themeList)) setting)
      with (if String.eqb "theme" setting then Some theme else None) in H.
    destruct (String.eqb_spec "theme" setting) as [<-|]; [| discriminate H].
    injection H as <-. split; [left; vm_compute; reflexivity|].
    exists "dark", (plain_option JS.Undefined). vm_compute. repeat split.
  - vm_compute. reflexivity.
Defined.



(** The soft mode, whose function returns [false]. *)
Lemma a_function_must_return_true_witness :
  let w := new_SettingsManager modeList in
  let w' := after (task (set "mode" (plain_args (JS.Str "soft")))) w in
  result (task (set "mode" (plain_args (JS.Str "soft")))) w = Normal tt
  /\ items (storage w') !! "mode" = Some "soft"
  /\ CallUpdateDOM "mode" (JS.Str "soft") true ∈ trace w'.
Proof.
  apply (a_function_must_return_true (new_SettingsManager modeList) "mode" "soft" mode
           (option_with (JS.Str "Soft") (Returns (JS.Bool false))) (JS.Bool false)
           (plain_args (JS.Str "soft")));
    vm_compute; try reflexivity; intros H; discriminate H.
Defined.

(** A name that is found nowhere. *)
Lemma executeSetting_throws_only_on_an_unknown_setting_witness :
  result (executeSetting "contrast" {| x_value := JS.Undefined; x_args := None |})
    (new_SettingsManager themeList)
  = Throw TypeError.
Proof.
  apply (executeSetting_throws_only_on_an_unknown_setting
           (new_SettingsManager themeList) "contrast"
           {| x_value := JS.Undefined; x_args := None |}).
  vm_compute. reflexivity.
Defined.


(** Sepia is no option of the theme setting; [next] starts over. *)
Lemma next_answers_an_option_key_witness :
  exists r k,
    result (next "theme" (JS.Str "sepia")) (new_SettingsManager themeList) = Normal r
    /\ n r = JS.Str k
    /\ k ∈ JS.own_keys (s_o theme).
Proof.
  apply (next_answers_an_option_key (new_SettingsManager themeList) "theme" theme
           (JS.Str "sepia")).
  - vm_compute. reflexivity.
  - discriminate.
Defined.

(** A name that every object inherits. *)
Lemma next_throws_on_an_unregistered_name_witness :
  result (next "toString" JS.Undefined) (new_SettingsManager themeList) = Throw TypeError.
Proof.
  apply (next_throws_on_an_unregistered_name (new_SettingsManager themeList)
           "toString" JS.Undefined).
  vm_compute. reflexivity.
Defined.

(** An engine built before its container exists; the container appears
    empty. *)
Lemma the_observer_mounts_once_witness :
  let p := page_of (after (constructor detached) (page themeList)) in
  let p1 := (mutation (Some []) p).2 in
  (mutation (Some []) p).1 = Normal tt
  /\ engine p1 = after insertDOMAndInit (with_container (Some []) (engine p))
  /\ mutation (Some []) p1 = (Normal tt, p1).
Proof.
  apply (the_observer_mounts_once
           (page_of (after (constructor detached) (page themeList))) [] (Some []));
    vm_compute; reflexivity.
Defined.


(** The page of the level setting, where option 1 is Active. *)
Lemma click_on_an_active_button_does_nothing_witness :
  let p := page_of (new_SettingsManager (levelList ["1"; "2"; "3"])) in
  (forall i, i ∈ active_tops p -> click (AtTop i) p = (Normal tt, p))
  /\ (forall i j id buttons b,
        document p !! i = Some (SubMenu id buttons) ->
        buttons !! j = Some b ->
        sb_active b = true ->
        click (AtSub i j) p = (Normal tt, p))
  /\ click Elsewhere p = (Normal tt, p).
Proof.
  apply (click_on_an_active_button_does_nothing
           (page_of (new_SettingsManager (levelList ["1"; "2"; "3"])))).
  vm_compute. reflexivity.
Defined.

(** A click on the sub-button of level 2. *)
Lemma click_on_a_sub_button_stores_its_value_witness :
  let p := page_of (new_SettingsManager (levelList ["1"; "2"; "3"])) in
  let p' := (click (AtSub 1 1) p).2 in
  (click (AtSub 1 1) p).1 = Normal tt
  /\ result (get "level") (engine p') = Normal (JS.Str "2")
  /\ active_tops p' = active_tops p
  /\ open_menus p' = open_menus p.
Proof.
  apply (click_on_a_sub_button_stores_its_value
           (page_of (new_SettingsManager (levelList ["1"; "2"; "3"]))) 1 1 "level"
           level_buttons (level_button "2" false) (level ["1"; "2"; "3"])
           (plain_option JS.Undefined));
    vm_compute; reflexivity.
Defined.

(** A click on the top button of the level setting. *)
Lemma click_opens_the_menu_of_its_button_witness :
  let p := page_of (new_SettingsManager (levelList ["1"; "2"; "3"])) in
  click (AtTop 0) p = (Normal tt, with_classes {[ 0%nat ]} {[ 1%nat ]} p).
Proof.
  apply (click_opens_the_menu_of_its_button
           (page_of (new_SettingsManager (levelList ["1"; "2"; "3"]))) 0 1 level_top
           "level").
  - vm_compute. reflexivity.
  - apply (bool_decide_unpack _). vm_compute. exact I.
  - vm_compute. reflexivity.
  - vm_compute. reflexivity.
  - vm_compute. reflexivity.
  - discriminate.
  - vm_compute. reflexivity.
  - vm_compute. reflexivity.
  - vm_compute. reflexivity.
Defined.


(** The setting TopSpeed: its button is TopSpeedTop, and the id looked
    up is SpeedTop. *)
Lemma click_on_a_button_without_panel_throws_witness :
  let p := page_of (new_SettingsManager topSpeedList) in
  click (AtTop 0) p = (Throw TypeError, with_classes ∅ ∅ p).
Proof.
  apply (click_on_a_button_without_panel_throws
           (page_of (new_SettingsManager topSpeedList)) 0 top_speed_top).
  - vm_compute. reflexivity.
  - apply (bool_decide_unpack _). vm_compute. exact I.
  - vm_compute. reflexivity.
  - vm_compute. reflexivity.
  - vm_compute. reflexivity.
  - vm_compute. reflexivity.
Defined.
